(** * sdl3-deno: the event union, the single-record [Event] and the batch
      [EventArray]

    A shallow embedding of [gen/events.ts] (class [EventUnion]) and of the
    event wrapper module (classes [Event] and [EventArray]), with the
    properties of the tag dispatch, the queue-facing operations, the event
    generator and the batch cursor.

    Conventions of the embedding.
    - A JavaScript [number] that holds a cursor, an index, a count or a type
      tag is a [Z]; the values the code computes from them stay integers.
      The capacity of an [EventArray] is the number its constructor was
      handed, which the code never tests for being an integer: it is a
      [Number.t].
    - A method that can throw returns a [completion]; a method that updates
      [this] takes the object and returns the updated object next to its
      completion.
    - A record of the native library is a [list byte]; a [DataView] is a
      window (offset, length) onto the bytes of its owner.
    - What the generated modules and the native library supply (the numbering
      of [EventType], the [read_*]/[write_*] struct codecs, the native queue
      calls) is a section variable, so a statement holds whatever those are;
      the native queue also has a concrete model, [NativeQueue]. *)

From Stdlib Require Import ZArith QArith Qround List Bool Lia String.
From Stdlib Require Import Strings.Byte.
Import ListNotations.

Open Scope Z_scope.

(** ** JavaScript completions *)

Inductive exn : Type :=
| Error (message : string)
| RangeError (message : string).

Inductive completion (A : Type) : Type :=
| Return (a : A)
| Throw (e : exn).

Arguments Return {A} a.
Arguments Throw {A} e.

(** ** Numbers that need not be integers *)

(** A JavaScript [number] as the value it stands for: a rational, an
    infinity or [NaN]. Every finite double is a rational, and what the code
    does with such a number (the product by 128, a comparison with an
    integer, the truncation of a length) is exact on doubles; a product too
    large for a double is [Infinity], refused as a length like the
    rational. *)
Module Number.

Inductive t : Type :=
| Finite (q : Q)
| PlusInfinity
| MinusInfinity
| NaN.

Definition of_Z (z : Z) : t := Finite (inject_Z z).

(** [x < y] and [x <= y]: false as soon as one side is [NaN]. *)
Definition ltb (x y : t) : bool :=
  match x, y with
  | NaN, _ | _, NaN => false
  | Finite p, Finite q => negb (Qle_bool q p)
  | _, MinusInfinity => false
  | MinusInfinity, _ => true
  | PlusInfinity, _ => false
  | Finite _, PlusInfinity => true
  end.

Definition leb (x y : t) : bool :=
  match x, y with
  | NaN, _ | _, NaN => false
  | Finite p, Finite q => Qle_bool p q
  | MinusInfinity, _ => true
  | _, PlusInfinity => true
  | PlusInfinity, _ => false
  | Finite _, MinusInfinity => false
  end.

(** [x >= y]. *)
Definition geb (x y : t) : bool := leb y x.

Definition lt (x y : t) : Prop := ltb x y = true.
Definition le (x y : t) : Prop := leb x y = true.
Definition ge (x y : t) : Prop := geb x y = true.

(** [x * k] for an integer [k > 0]. *)
Definition mul (x : t) (k : Z) : t :=
  match x with
  | Finite q => Finite (q * inject_Z k)%Q
  | _ => x
  end.

(** Truncation towards zero. *)
Definition truncate (q : Q) : Z := Z.quot (Qnum q) (Z.pos (Qden q)).

(** [ToIndex], which [new Uint8Array(length)] applies to its argument:
    [NaN] counts as 0, a fraction is cut off, and a result that is
    negative or above 2^53 - 1 is a [RangeError]. *)
Definition ToIndex (x : t) : completion Z :=
  match x with
  | NaN => Return 0
  | Finite q =>
      let i := truncate q in
      if (i <? 0) || (2 ^ 53 - 1 <? i)
      then Throw (RangeError "invalid typed array length")
      else Return i
  | _ => Throw (RangeError "invalid typed array length")
  end.

End Number.

Declare Scope number_scope.
Delimit Scope number_scope with number.
Bind Scope number_scope with Number.t.
Coercion Number.of_Z : Z >-> Number.t.
Notation "x <? y" := (Number.ltb x y) : number_scope.
Notation "x <=? y" := (Number.leb x y) : number_scope.
Notation "x >=? y" := (Number.geb x y) : number_scope.
Notation "x < y" := (Number.lt x y) : number_scope.
Notation "x <= y" := (Number.le x y) : number_scope.
Notation "x >= y" := (Number.ge x y) : number_scope.

(** ** The names of [EventType] the sources mention, in the order of the
       [switch] of [toObject], followed by [LAST] *)

Inductive EventTypeName : Type :=
| QUIT
| DISPLAY_ORIENTATION | DISPLAY_ADDED | DISPLAY_REMOVED | DISPLAY_MOVED
| DISPLAY_DESKTOP_MODE_CHANGED | DISPLAY_CURRENT_MODE_CHANGED
| DISPLAY_CONTENT_SCALE_CHANGED | DISPLAY_USABLE_BOUNDS_CHANGED
| WINDOW_SHOWN | WINDOW_HIDDEN | WINDOW_EXPOSED | WINDOW_MOVED | WINDOW_RESIZED
| WINDOW_PIXEL_SIZE_CHANGED | WINDOW_METAL_VIEW_RESIZED | WINDOW_MINIMIZED
| WINDOW_MAXIMIZED | WINDOW_RESTORED | WINDOW_MOUSE_ENTER | WINDOW_MOUSE_LEAVE
| WINDOW_FOCUS_GAINED | WINDOW_FOCUS_LOST | WINDOW_CLOSE_REQUESTED
| WINDOW_HIT_TEST | WINDOW_ICCPROF_CHANGED | WINDOW_DISPLAY_CHANGED
| WINDOW_DISPLAY_SCALE_CHANGED | WINDOW_SAFE_AREA_CHANGED | WINDOW_OCCLUDED
| WINDOW_ENTER_FULLSCREEN | WINDOW_LEAVE_FULLSCREEN | WINDOW_DESTROYED
| WINDOW_HDR_STATE_CHANGED
| KEY_DOWN | KEY_UP | TEXT_EDITING | TEXT_INPUT | KEYBOARD_ADDED
| KEYBOARD_REMOVED | TEXT_EDITING_CANDIDATES
| MOUSE_MOTION | MOUSE_BUTTON_DOWN | MOUSE_BUTTON_UP | MOUSE_WHEEL
| MOUSE_ADDED | MOUSE_REMOVED
| JOYSTICK_AXIS_MOTION | JOYSTICK_BALL_MOTION | JOYSTICK_HAT_MOTION
| JOYSTICK_BUTTON_DOWN | JOYSTICK_BUTTON_UP | JOYSTICK_ADDED
| JOYSTICK_REMOVED | JOYSTICK_BATTERY_UPDATED | JOYSTICK_UPDATE_COMPLETE
| GAMEPAD_AXIS_MOTION | GAMEPAD_BUTTON_DOWN | GAMEPAD_BUTTON_UP
| GAMEPAD_ADDED | GAMEPAD_REMOVED | GAMEPAD_REMAPPED | GAMEPAD_TOUCHPAD_DOWN
| GAMEPAD_TOUCHPAD_MOTION | GAMEPAD_TOUCHPAD_UP | GAMEPAD_SENSOR_UPDATE
| GAMEPAD_UPDATE_COMPLETE | GAMEPAD_STEAM_HANDLE_UPDATED
| FINGER_DOWN | FINGER_UP | FINGER_MOTION | FINGER_CANCELED
| PINCH_BEGIN | PINCH_UPDATE | PINCH_END
| CLIPBOARD_UPDATE
| DROP_FILE | DROP_TEXT | DROP_BEGIN | DROP_COMPLETE | DROP_POSITION
| AUDIO_DEVICE_ADDED | AUDIO_DEVICE_REMOVED | AUDIO_DEVICE_FORMAT_CHANGED
| SENSOR_UPDATE
| PEN_PROXIMITY_IN | PEN_PROXIMITY_OUT | PEN_DOWN | PEN_UP | PEN_BUTTON_DOWN
| PEN_BUTTON_UP | PEN_MOTION | PEN_AXIS
| CAMERA_DEVICE_ADDED | CAMERA_DEVICE_REMOVED | CAMERA_DEVICE_APPROVED
| CAMERA_DEVICE_DENIED
| RENDER_TARGETS_RESET | RENDER_DEVICE_RESET | RENDER_DEVICE_LOST
| USER
| LAST.

(** The getters of [EventUnion]: one projection of the record per payload
    shape. *)

Inductive Projection : Type :=
| common | display | window | keyboardDevice | keyboard | textEditing
| textEditingCandidates | textInput | mouseDevice | mouseMotion | mouseButton
| mouseWheel | joyAxis | joyBall | joyHat | joyButton | joyDevice | joyBattery
| gamepadAxis | gamepadButton | gamepadDevice | gamepadTouchpad | gamepadSensor
| audioDevice | cameraDevice | render | touchFinger | pinchFinger
| penProximity | penMotion | penTouch | penButton | penAxis | drop | clipboard
| sensor | quit | user.

(** The [case] labels of [toObject] with the getter each one returns, in
    source order. *)

Definition switch_cases : list (EventTypeName * Projection) :=
  [ (QUIT, quit);
    (DISPLAY_ORIENTATION, display); (DISPLAY_ADDED, display);
    (DISPLAY_REMOVED, display); (DISPLAY_MOVED, display);
    (DISPLAY_DESKTOP_MODE_CHANGED, display);
    (DISPLAY_CURRENT_MODE_CHANGED, display);
    (DISPLAY_CONTENT_SCALE_CHANGED, display);
    (DISPLAY_USABLE_BOUNDS_CHANGED, display);
    (WINDOW_SHOWN, window); (WINDOW_HIDDEN, window); (WINDOW_EXPOSED, window);
    (WINDOW_MOVED, window); (WINDOW_RESIZED, window);
    (WINDOW_PIXEL_SIZE_CHANGED, window); (WINDOW_METAL_VIEW_RESIZED, window);
    (WINDOW_MINIMIZED, window); (WINDOW_MAXIMIZED, window);
    (WINDOW_RESTORED, window); (WINDOW_MOUSE_ENTER, window);
    (WINDOW_MOUSE_LEAVE, window); (WINDOW_FOCUS_GAINED, window);
    (WINDOW_FOCUS_LOST, window); (WINDOW_CLOSE_REQUESTED, window);
    (WINDOW_HIT_TEST, window); (WINDOW_ICCPROF_CHANGED, window);
    (WINDOW_DISPLAY_CHANGED, window); (WINDOW_DISPLAY_SCALE_CHANGED, window);
    (WINDOW_SAFE_AREA_CHANGED, window); (WINDOW_OCCLUDED, window);
    (WINDOW_ENTER_FULLSCREEN, window); (WINDOW_LEAVE_FULLSCREEN, window);
    (WINDOW_DESTROYED, window); (WINDOW_HDR_STATE_CHANGED, window);
    (KEY_DOWN, keyboard); (KEY_UP, keyboard);
    (TEXT_EDITING, textEditing); (TEXT_INPUT, textInput);
    (KEYBOARD_ADDED, keyboardDevice); (KEYBOARD_REMOVED, keyboardDevice);
    (TEXT_EDITING_CANDIDATES, textEditingCandidates);
    (MOUSE_MOTION, mouseMotion);
    (MOUSE_BUTTON_DOWN, mouseButton); (MOUSE_BUTTON_UP, mouseButton);
    (MOUSE_WHEEL, mouseWheel);
    (MOUSE_ADDED, mouseDevice); (MOUSE_REMOVED, mouseDevice);
    (JOYSTICK_AXIS_MOTION, joyAxis); (JOYSTICK_BALL_MOTION, joyBall);
    (JOYSTICK_HAT_MOTION, joyHat);
    (JOYSTICK_BUTTON_DOWN, joyButton); (JOYSTICK_BUTTON_UP, joyButton);
    (JOYSTICK_ADDED, joyDevice); (JOYSTICK_REMOVED, joyDevice);
    (JOYSTICK_BATTERY_UPDATED, joyBattery);
    (JOYSTICK_UPDATE_COMPLETE, joyDevice);
    (GAMEPAD_AXIS_MOTION, gamepadAxis);
    (GAMEPAD_BUTTON_DOWN, gamepadButton); (GAMEPAD_BUTTON_UP, gamepadButton);
    (GAMEPAD_ADDED, gamepadDevice); (GAMEPAD_REMOVED, gamepadDevice);
    (GAMEPAD_REMAPPED, gamepadDevice);
    (GAMEPAD_TOUCHPAD_DOWN, gamepadTouchpad);
    (GAMEPAD_TOUCHPAD_MOTION, gamepadTouchpad);
    (GAMEPAD_TOUCHPAD_UP, gamepadTouchpad);
    (GAMEPAD_SENSOR_UPDATE, gamepadSensor);
    (GAMEPAD_UPDATE_COMPLETE, gamepadDevice);
    (GAMEPAD_STEAM_HANDLE_UPDATED, gamepadDevice);
    (FINGER_DOWN, touchFinger); (FINGER_UP, touchFinger);
    (FINGER_MOTION, touchFinger); (FINGER_CANCELED, touchFinger);
    (PINCH_BEGIN, pinchFinger); (PINCH_UPDATE, pinchFinger);
    (PINCH_END, pinchFinger);
    (CLIPBOARD_UPDATE, clipboard);
    (DROP_FILE, drop); (DROP_TEXT, drop); (DROP_BEGIN, drop);
    (DROP_COMPLETE, drop); (DROP_POSITION, drop);
    (AUDIO_DEVICE_ADDED, audioDevice); (AUDIO_DEVICE_REMOVED, audioDevice);
    (AUDIO_DEVICE_FORMAT_CHANGED, audioDevice);
    (SENSOR_UPDATE, sensor);
    (PEN_PROXIMITY_IN, penProximity); (PEN_PROXIMITY_OUT, penProximity);
    (PEN_DOWN, penTouch); (PEN_UP, penTouch);
    (PEN_BUTTON_DOWN, penButton); (PEN_BUTTON_UP, penButton);
    (PEN_MOTION, penMotion); (PEN_AXIS, penAxis);
    (CAMERA_DEVICE_ADDED, cameraDevice); (CAMERA_DEVICE_REMOVED, cameraDevice);
    (CAMERA_DEVICE_APPROVED, cameraDevice);
    (CAMERA_DEVICE_DENIED, cameraDevice);
    (RENDER_TARGETS_RESET, render); (RENDER_DEVICE_RESET, render);
    (RENDER_DEVICE_LOST, render);
    (USER, user) ].

(** ** Bytes and views *)

Definition SizeOfSdlEvent : Z := 128.

Definition byte_at (bs : list byte) (i : nat) : Z :=
  Z.of_N (Byte.to_N (nth i bs x00)).

(** [getUint32] in the byte order of the platform ([littleEndian]). *)
Definition getUint32 (littleEndian : bool) (bs : list byte) (off : nat) : Z :=
  let b0 := byte_at bs off in
  let b1 := byte_at bs (off + 1) in
  let b2 := byte_at bs (off + 2) in
  let b3 := byte_at bs (off + 3) in
  if littleEndian
  then b0 + 256 * b1 + 65536 * b2 + 16777216 * b3
  else b3 + 256 * b2 + 65536 * b1 + 16777216 * b0.

Record DataView : Type := { byteOffset : Z; byteLength : Z }.

(** [new DataView(buffer, byteOffset, byteLength)]: a [RangeError] unless the
    window lies inside the buffer. *)
Definition new_DataView (bufferLength offset len : Z) : completion DataView :=
  if (offset <? 0) || (bufferLength <? offset)
  then Throw (RangeError "start offset is outside the bounds of the buffer")
  else if (len <? 0) || (bufferLength <? offset + len)
  then Throw (RangeError "invalid DataView length")
  else Return {| byteOffset := offset; byteLength := len |}.

(** The bytes a view shows. *)
Definition view_bytes (mem : list byte) (v : DataView) : list byte :=
  firstn (Z.to_nat (byteLength v)) (skipn (Z.to_nat (byteOffset v)) mem).

(** A write through a view cannot leave its window: the new contents are cut
    or zero-filled to the window's length. *)
Definition fit (n : nat) (l : list byte) : list byte :=
  firstn n (l ++ repeat x00 n).

Definition view_store (mem : list byte) (v : DataView) (new : list byte)
  : list byte :=
  firstn (Z.to_nat (byteOffset v)) mem
  ++ fit (Z.to_nat (byteLength v)) new
  ++ skipn (Z.to_nat (byteOffset v) + Z.to_nat (byteLength v)) mem.

(** A field of type [number] that a subclass may leave unset. *)
Inductive number_field : Type :=
| undefined
| Num (n : Z).

(** Modelled from the spec: the interfaces [CommonEvent] and [QuitEvent] of
    the generated [structs/SDL_events.ts]; every variant shares the leading
    [type] / [timestamp] / [reserved] header, and the quit variant has
    nothing else: the three fields the object literals of [pushCommon] and
    [pushQuit] name. *)
Record CommonEvent : Type := mkCommonEvent
  { ev_type : Z; ev_reserved : Z; ev_timestamp : Z }.

Definition QuitEvent : Type := CommonEvent.

(** [PartialCommon<QuitEvent>]: every header field is optional. *)
Record PartialCommon : Type := mkPartialCommon
  { opt_type : option Z; opt_reserved : option Z; opt_timestamp : option Z }.

(** [PartialComm_T<CommonEvent>]: [type] is required, the rest optional. *)
Record PartialComm_T : Type := mkPartialComm_T
  { req_type : Z; opt_reserved' : option Z; opt_timestamp' : option Z }.

(** A property of a spread [...e] replaces the one written before it. *)
Definition or_default (d : Z) (o : option Z) : Z :=
  match o with Some x => x | None => d end.

Module EventUnion.

(** The abstract members of [EventUnion], over the state [S] a method call
    reads and updates; [bytes] is the memory the views of [dt] range over. *)
Class Impl (S : Type) : Type := {
  type : S -> number_field;
  dt : S -> completion DataView;
  bytes : S -> list byte;
  set_bytes : list byte -> S -> S;
  push : S -> completion unit * S
}.

Section Methods.
Variable EventType : EventTypeName -> Z.
Variable Obj : Type.
Variable read : Projection -> list byte -> Obj.
Variable write_QuitEvent : QuitEvent -> list byte -> list byte.
Variable write_CommonEvent : CommonEvent -> list byte -> list byte.
Context {S : Type} {I : Impl S}.

(** A getter: [get quit() { return _.read_QuitEvent(this.dt); }]. *)
Definition project (p : Projection) (s : S) : completion Obj :=
  match dt s with
  | Return v => Return (read p (view_bytes (bytes s) v))
  | Throw e => Throw e
  end.

(** The [switch] of [toObject]: the first label strictly equal to the
    tag, else the [default] clause. An unset tag equals no label and
    fails both comparisons of the range test. *)
Definition dispatch (ty : number_field) : Projection :=
  match ty with
  | undefined => common
  | Num t =>
      match find (fun c => EventType (fst c) =? t) switch_cases with
      | Some c => snd c
      | None =>
          if (EventType USER <=? t) && (t <=? EventType LAST)
          then user else common
      end
  end.

Definition toObject (s : S) : completion Obj :=
  project (dispatch (type s)) s.

(** The shape shared by every [pushX(e)]:
    [_.write_X(record, this.dt); this.push();]. *)
Definition pushVariant {T : Type} (write : T -> list byte -> list byte)
    (t : T) (s : S) : completion unit * S :=
  match dt s with
  | Throw e => (Throw e, s)
  | Return v =>
      push (set_bytes
              (view_store (bytes s) v (write t (view_bytes (bytes s) v)))
              s)
  end.

(** [{ type: EventType.QUIT, reserved: 0, timestamp: 0n, ...e }]. *)
Definition quit_record (e : PartialCommon) : QuitEvent :=
  {| ev_type := or_default (EventType QUIT) (opt_type e);
     ev_reserved := or_default 0 (opt_reserved e);
     ev_timestamp := or_default 0 (opt_timestamp e) |}.

Definition pushQuit (e : PartialCommon) (s : S) : completion unit * S :=
  pushVariant write_QuitEvent (quit_record e) s.

(** [{ reserved: 0, timestamp: 0n, ...e }]. *)
Definition common_record (e : PartialComm_T) : CommonEvent :=
  {| ev_type := req_type e;
     ev_reserved := or_default 0 (opt_reserved' e);
     ev_timestamp := or_default 0 (opt_timestamp' e) |}.

Definition pushCommon (e : PartialComm_T) (s : S) : completion unit * S :=
  pushVariant write_CommonEvent (common_record e) s.
End Methods.

(** An implementation that also counts the calls of its [push]. *)
Definition counting {S : Type} (I : Impl S) : Impl (S * nat) :=
  {| type := fun s => type (fst s);
     dt := fun s => dt (fst s);
     bytes := fun s => bytes (fst s);
     set_bytes := fun b s => (set_bytes b (fst s), snd s);
     push := fun s =>
       let r := push (fst s) in (fst r, (snd r, Datatypes.S (snd s))) |}.

End EventUnion.

(** ** The single-record accessor *)

Module Event.

(** An [Event]: [record] is the memory [this.pointer] designates (the own
    128-byte [#buffer], or the record behind [nonOwnedPointer]); [type] is
    the cached tag, 0 in a fresh object. *)
Record t : Type := mk { record : list byte; type : Z }.

Definition set_record (r : list byte) (e : t) : t :=
  {| record := r; type := type e |}.

(** [new Event()]: a zeroed buffer and [type = 0]. *)
Definition new : t :=
  {| record := repeat x00 (Z.to_nat SizeOfSdlEvent); type := 0 |}.

(** [get dt()]: a view of the whole record; it never throws. *)
Definition dt (e : t) : completion DataView :=
  Return {| byteOffset := 0; byteLength := SizeOfSdlEvent |}.

Section Native.
Variable EventType : EventTypeName -> Z.
Variable littleEndian : bool.

(** The native side: its state, and what a call that is handed the
    pointer of the record returns, leaves in the record and does to that
    state. *)
Variable World : Type.
Variable pollEvent : list byte -> World -> bool * list byte * World.
Variable waitEvent : list byte -> World -> bool * list byte * World.
Variable waitEventTimeout :
  Z -> list byte -> World -> bool * list byte * World.
Variable pushEvent : list byte -> World -> bool * list byte * World.

(** [readType_]: [this.type = view.getUint32(0); return true]. *)
Definition readType_ (e : t) : bool * t :=
  (true,
   {| record := record e; type := getUint32 littleEndian (record e) 0 |}).

(** [native(this.pointer) && this.readType_()]: the right operand runs
    only when the native call returned true. *)
Definition and_readType_
    (native : list byte -> World -> bool * list byte * World)
    (e : t) (w : World) : bool * t * World :=
  let '(ok, r, w') := native (record e) w in
  let e' := set_record r e in
  if ok then (fst (readType_ e'), snd (readType_ e'), w')
  else (false, e', w').

Definition poll : t -> World -> bool * t * World :=
  and_readType_ pollEvent.

Definition wait : t -> World -> bool * t * World :=
  and_readType_ waitEvent.

Definition waitTimeout (timeoutMS : Z) : t -> World -> bool * t * World :=
  and_readType_ (waitEventTimeout timeoutMS).

(** The three methods that take an event off the queue. *)
Inductive taking : Type :=
| Poll
| Wait
| WaitTimeout (timeoutMS : Z).

Definition take (m : taking) : t -> World -> bool * t * World :=
  match m with
  | Poll => poll
  | Wait => wait
  | WaitTimeout timeoutMS => waitTimeout timeoutMS
  end.

(** [push(): boolean { return SDL.pushEvent(this.pointer); }]. *)
Definition push (e : t) (w : World) : bool * t * World :=
  let '(ok, r, w') := pushEvent (record e) w in (ok, set_record r e, w').

(** [Event] as an [EventUnion]; the state of a call is the object and the
    native side. The callers of the abstract [push] drop its result. *)
Definition impl : EventUnion.Impl (t * World) :=
  {| EventUnion.type := fun s => Num (type (fst s));
     EventUnion.dt := fun s => dt (fst s);
     EventUnion.bytes := fun s => record (fst s);
     EventUnion.set_bytes := fun b s => (set_record b (fst s), snd s);
     EventUnion.push := fun s =>
       let '(_, e', w') := push (fst s) (snd s) in (Return tt, (e', w')) |}.

(** *** The generator [iter] *)

(** The clock: [Date.now()], and the arithmetic on its values. *)
Variable Time : Type.
Variable Date_now : World -> Time.
Variable plus minus : Time -> Time -> Time.
Variable positive : Time -> bool.
Variable zero : Time.

(** Where the generator is suspended. *)
Inductive state : Type :=
| NotStarted
| AtYield (is_quit : bool) (nextFrame : Time)
| AtSleep (nextFrame : Time)
| Completed.

(** What a run of the generator does, in order: a call of [poll] and its
    result, a [yield], a call of [onIdle], the wait on the timer, the end of
    the generator ([Returned]: the resumption reports that it is done, as
    does any later one; [Threw]: it ends on an exception of [onIdle]). *)
Inductive action : Type :=
| Polled (got : bool)
| Yielded (e : t)
| Idled
| Slept (ms : Time)
| Returned
| Threw (x : exn).

(** [if (onIdle) onIdle();] *)
Definition call_onIdle
    (onIdle : option (t -> World -> completion unit * t * World))
    (e : t) (w : World) : list action * completion unit * t * World :=
  match onIdle with
  | None => ([], Return tt, e, w)
  | Some f => let '(c, e', w') := f e w in ([Idled], c, e', w')
  end.

(** From the test of the inner [while] to the next suspension: one
    [poll]; an event is yielded, with [const quit] ([is_quit]) computed
    before the [yield]; with none left, [onIdle], then the sleep until the
    frame is due. *)
Definition drain (interval : Time)
    (onIdle : option (t -> World -> completion unit * t * World))
    (nextFrame : Time) (e : t) (w : World)
  : list action * state * t * World :=
  let '(got, e1, w1) := poll e w in
  if got then
    let is_quit := type e1 =? EventType QUIT in
    ([Polled true; Yielded e1], AtYield is_quit nextFrame, e1, w1)
  else
    let '(acts, c, e2, w2) := call_onIdle onIdle e1 w1 in
    match c with
    | Throw x => (Polled false :: acts ++ [Threw x], Completed, e2, w2)
    | Return _ =>
        let now := Date_now w2 in
        let remaining := minus nextFrame now in
        (Polled false :: acts
           ++ [Slept (if positive remaining then remaining else zero)],
         AtSleep (plus nextFrame interval), e2, w2)
    end.

(** One resumption: [next()] on a generator that is fresh, suspended at
    its [yield] or finished, or the timer firing on one that sleeps. *)
Definition resume (interval : Time)
    (onIdle : option (t -> World -> completion unit * t * World))
    (st : state) (e : t) (w : World)
  : list action * state * t * World :=
  match st with
  | NotStarted => drain interval onIdle (plus (Date_now w) interval) e w
  | AtYield is_quit nextFrame =>
      if is_quit then ([Returned], Completed, e, w)
      else drain interval onIdle nextFrame e w
  | AtSleep nextFrame => drain interval onIdle nextFrame e w
  | Completed => ([Returned], Completed, e, w)
  end.

(** A run: before each resumption the consumer and the outside world do
    what they like to the yielded object and to the native side. *)
Fixpoint run (interval : Time)
    (onIdle : option (t -> World -> completion unit * t * World))
    (between : list (t -> World -> t * World))
    (st : state) (e : t) (w : World) : list action :=
  match between with
  | [] => []
  | env :: rest =>
      let '(e0, w0) := env e w in
      let '(acts, st', e', w') := resume interval onIdle st e0 w0 in
      acts ++ run interval onIdle rest st' e' w'
  end.

(** A trace in which nothing but [Returned] follows the yield of a
    [QUIT]-tagged event. *)
Fixpoint quit_is_last (trace : list action) : Prop :=
  match trace with
  | [] => True
  | Yielded ev :: rest =>
      (type ev = EventType QUIT -> Forall (fun a => a = Returned) rest)
      /\ quit_is_last rest
  | _ :: rest => quit_is_last rest
  end.

Definition is_yield (a : action) : bool :=
  match a with Yielded _ => true | _ => false end.
End Native.

Arguments NotStarted {Time}.
Arguments AtYield {Time} is_quit nextFrame.
Arguments AtSleep {Time} nextFrame.
Arguments Completed {Time}.
Arguments Polled {Time} got.
Arguments Yielded {Time} e.
Arguments Idled {Time}.
Arguments Slept {Time} ms.
Arguments Returned {Time}.
Arguments Threw {Time} x.
Arguments quit_is_last EventType {Time} trace.

End Event.

(** ** The native queue *)

Module NativeQueue.

(** The queue of the native library: the records waiting, oldest first. *)
Definition queue : Type := list (list byte).

(** Modelled from the spec: [SDL.pollEvent] of the generated
    [gen/sdl/events.ts], the binding of the native poll. It removes and
    loads the next queued event into the record if one exists and returns
    whether one was retrieved; an empty queue is the false case, not a
    failure, and leaves record and queue as they are. *)
Definition pollEvent (rec : list byte) (q : queue)
  : bool * list byte * queue :=
  match q with
  | [] => (false, rec, q)
  | r :: q' => (true, r, q')
  end.

(** Modelled from the spec: [SDL.pushEvent], with no filter installed and
    room in the queue: the record is copied to the back of the queue. *)
Definition pushEvent (rec : list byte) (q : queue)
  : bool * list byte * queue :=
  (true, rec, q ++ [rec]).

(** A native call that fails: false, nothing touched. *)
Definition failing (rec : list byte) (q : queue)
  : bool * list byte * queue :=
  (false, rec, q).

End NativeQueue.

(** ** The batch accessor *)

Module EventArray.

Record t : Type :=
  mk { buf : list byte; numEvents : Z; maxEvents : Number.t }.

Definition set_numEvents (n : Z) (a : t) : t :=
  {| buf := buf a; numEvents := n; maxEvents := maxEvents a |}.

Definition set_buf (b : list byte) (a : t) : t :=
  {| buf := b; numEvents := numEvents a; maxEvents := maxEvents a |}.

(** [new EventArray(maxEvents)], for any number [maxEvents]: the field
    keeps the number as it was given, and [new Uint8Array(maxEvents * 128)]
    takes the length through [ToIndex]. Whether a block of that many bytes
    can be had is up to the engine and the memory left ([allocates]);
    when it cannot, that is a [RangeError] too. The buffer is zero-filled
    and the cursor is 0. *)
Definition new (allocates : Z -> bool) (maxEvents : Number.t)
  : completion t :=
  match Number.ToIndex (Number.mul maxEvents SizeOfSdlEvent) with
  | Throw x => Throw x
  | Return byteLen =>
      if allocates byteLen
      then Return {| buf := repeat x00 (Z.to_nat byteLen);
                     numEvents := 0;
                     maxEvents := maxEvents |}
      else Throw (RangeError "Array buffer allocation failed")
  end.

Definition push (a : t) : completion unit * t :=
  if (numEvents a >=? maxEvents a)%number
  then (Throw (Error "PeepEvents buffer full"), a)
  else (Return tt, set_numEvents (numEvents a + 1) a).

Definition dt (a : t) : completion DataView :=
  if (numEvents a >=? maxEvents a)%number
  then Throw (Error "PeepEvents buffer full")
  else new_DataView (Z.of_nat (List.length (buf a)))
                    (numEvents a * SizeOfSdlEvent) SizeOfSdlEvent.

(** A callback of [get]: it is handed the array itself, may update it, and
    returns or throws. *)
Definition callback : Type := t -> completion unit * t.

(** [get(index, f)]: the [finally] clause puts the cursor back whatever
    [f] did, and the completion of [f] is the completion of [get]. *)
Definition get (index : Z) (f : callback) (a : t) : completion unit * t :=
  if index >=? numEvents a
  then (Throw (Error "PeepEvents index out of range"), a)
  else
    let t := numEvents a in
    let '(c, a') := f (set_numEvents index a) in
    (c, set_numEvents t a').

(** A callback of [fold]: it also gets the index, and its result tells
    whether to go on. *)
Definition fold_callback : Type := t -> Z -> completion bool * t.

(** [for (let i = 0; i < n; ++i)]: [todo] counts the indices from [i] up
    to [n]. *)
Fixpoint fold_loop (f : fold_callback) (todo : nat) (i : Z) (a : t)
  : completion unit * t :=
  match todo with
  | O => (Return tt, a)
  | S todo' =>
      let '(c, a') := f (set_numEvents i a) i in
      match c with
      | Throw x => (Throw x, a')
      | Return false => (Return tt, a')
      | Return true => fold_loop f todo' (i + 1) a'
      end
  end.

Definition fold (f : fold_callback) (a : t) : completion unit * t :=
  let n := numEvents a in
  let '(c, a') := fold_loop f (Z.to_nat n) 0 a in
  (c, set_numEvents n a').

(** [EventArray] as an [EventUnion]: it declares no [type]. *)
Definition impl : EventUnion.Impl t :=
  {| EventUnion.type := fun _ => undefined;
     EventUnion.dt := dt;
     EventUnion.bytes := buf;
     EventUnion.set_bytes := set_buf;
     EventUnion.push := push |}.

(** Any [pushX(e)] on the batch, [write] being [_.write_X] applied to the
    completed record. *)
Definition pushVia (write : list byte -> list byte) (a : t)
  : completion unit * t :=
  @EventUnion.pushVariant t impl unit (fun _ => write) tt a.

(** The operations of an array. *)
Inductive operation : Type :=
| Push
| ReadDt
| PushVia (write : list byte -> list byte)
| Get (index : Z) (f : callback)
| Fold (f : fold_callback).

(** The array after an operation, whether it returned or threw. *)
Definition after (o : operation) (a : t) : t :=
  match o with
  | Push => snd (push a)
  | ReadDt => a
  | PushVia write => snd (pushVia write a)
  | Get index f => snd (get index f a)
  | Fold f => snd (fold f a)
  end.

(** The arrays seen after each operation of a sequence. *)
Fixpoint history (ops : list operation) (a : t) : list t :=
  match ops with
  | [] => []
  | o :: rest => after o a :: history rest (after o a)
  end.

(** A callback written with the operations of the array alone: it runs
    [ops] on the array it is handed, going on after one that throws as
    after a [try]/[catch], and completes as [c]. *)
Definition run_all (ops : list operation) (a : t) : t :=
  fold_left (fun a' o => after o a') ops a.

Definition scripted (ops : list operation) (c : completion unit) : callback :=
  fun a => (c, run_all ops a).

(** What the operations of the array do to capacity and buffer size:
    nothing. A callback that only uses them has the same property. *)
Definition keeps_capacity (g : t -> t) : Prop :=
  forall a, maxEvents (g a) = maxEvents a
            /\ List.length (buf (g a)) = List.length (buf a).

Definition well_behaved (o : operation) : Prop :=
  match o with
  | Get _ f => keeps_capacity (fun a => snd (f a))
  | Fold f => forall i, keeps_capacity (fun a => snd (f a i))
  | _ => True
  end.

(** [0 <= numEvents <= maxEvents]. *)
Definition cursor_in_range (a : t) : Prop :=
  0 <= numEvents a /\ (numEvents a <= maxEvents a)%number.

End EventArray.

(** ** Concrete data for the examples *)

Module Sample.

(** The numbering of [SDL_EventType] in the SDL 3 header, for the names
    above. *)
Definition EventType (n : EventTypeName) : Z :=
  match n with
  | QUIT => 0x100
  | DISPLAY_ORIENTATION => 0x151 | DISPLAY_ADDED => 0x152
  | DISPLAY_REMOVED => 0x153 | DISPLAY_MOVED => 0x154
  | DISPLAY_DESKTOP_MODE_CHANGED => 0x155
  | DISPLAY_CURRENT_MODE_CHANGED => 0x156
  | DISPLAY_CONTENT_SCALE_CHANGED => 0x157
  | DISPLAY_USABLE_BOUNDS_CHANGED => 0x158
  | WINDOW_SHOWN => 0x202 | WINDOW_HIDDEN => 0x203 | WINDOW_EXPOSED => 0x204
  | WINDOW_MOVED => 0x205 | WINDOW_RESIZED => 0x206
  | WINDOW_PIXEL_SIZE_CHANGED => 0x207 | WINDOW_METAL_VIEW_RESIZED => 0x208
  | WINDOW_MINIMIZED => 0x209 | WINDOW_MAXIMIZED => 0x20A
  | WINDOW_RESTORED => 0x20B | WINDOW_MOUSE_ENTER => 0x20C
  | WINDOW_MOUSE_LEAVE => 0x20D | WINDOW_FOCUS_GAINED => 0x20E
  | WINDOW_FOCUS_LOST => 0x20F | WINDOW_CLOSE_REQUESTED => 0x210
  | WINDOW_HIT_TEST => 0x211 | WINDOW_ICCPROF_CHANGED => 0x212
  | WINDOW_DISPLAY_CHANGED => 0x213 | WINDOW_DISPLAY_SCALE_CHANGED => 0x214
  | WINDOW_SAFE_AREA_CHANGED => 0x215 | WINDOW_OCCLUDED => 0x216
  | WINDOW_ENTER_FULLSCREEN => 0x217 | WINDOW_LEAVE_FULLSCREEN => 0x218
  | WINDOW_DESTROYED => 0x219 | WINDOW_HDR_STATE_CHANGED => 0x21A
  | KEY_DOWN => 0x300 | KEY_UP => 0x301 | TEXT_EDITING => 0x302
  | TEXT_INPUT => 0x303 | KEYBOARD_ADDED => 0x305
  | KEYBOARD_REMOVED => 0x306 | TEXT_EDITING_CANDIDATES => 0x307
  | MOUSE_MOTION => 0x400 | MOUSE_BUTTON_DOWN => 0x401
  | MOUSE_BUTTON_UP => 0x402 | MOUSE_WHEEL => 0x403
  | MOUSE_ADDED => 0x404 | MOUSE_REMOVED => 0x405
  | JOYSTICK_AXIS_MOTION => 0x600 | JOYSTICK_BALL_MOTION => 0x601
  | JOYSTICK_HAT_MOTION => 0x602 | JOYSTICK_BUTTON_DOWN => 0x603
  | JOYSTICK_BUTTON_UP => 0x604 | JOYSTICK_ADDED => 0x605
  | JOYSTICK_REMOVED => 0x606 | JOYSTICK_BATTERY_UPDATED => 0x607
  | JOYSTICK_UPDATE_COMPLETE => 0x608
  | GAMEPAD_AXIS_MOTION => 0x650 | GAMEPAD_BUTTON_DOWN => 0x651
  | GAMEPAD_BUTTON_UP => 0x652 | GAMEPAD_ADDED => 0x653
  | GAMEPAD_REMOVED => 0x654 | GAMEPAD_REMAPPED => 0x655
  | GAMEPAD_TOUCHPAD_DOWN => 0x656 | GAMEPAD_TOUCHPAD_MOTION => 0x657
  | GAMEPAD_TOUCHPAD_UP => 0x658 | GAMEPAD_SENSOR_UPDATE => 0x659
  | GAMEPAD_UPDATE_COMPLETE => 0x65A
  | GAMEPAD_STEAM_HANDLE_UPDATED => 0x65B
  | FINGER_DOWN => 0x700 | FINGER_UP => 0x701 | FINGER_MOTION => 0x702
  | FINGER_CANCELED => 0x703
  | PINCH_BEGIN => 0x710 | PINCH_UPDATE => 0x711 | PINCH_END => 0x712
  | CLIPBOARD_UPDATE => 0x900
  | DROP_FILE => 0x1000 | DROP_TEXT => 0x1001 | DROP_BEGIN => 0x1002
  | DROP_COMPLETE => 0x1003 | DROP_POSITION => 0x1004
  | AUDIO_DEVICE_ADDED => 0x1100 | AUDIO_DEVICE_REMOVED => 0x1101
  | AUDIO_DEVICE_FORMAT_CHANGED => 0x1102
  | SENSOR_UPDATE => 0x1200
  | PEN_PROXIMITY_IN => 0x1300 | PEN_PROXIMITY_OUT => 0x1301
  | PEN_DOWN => 0x1302 | PEN_UP => 0x1303 | PEN_BUTTON_DOWN => 0x1304
  | PEN_BUTTON_UP => 0x1305 | PEN_MOTION => 0x1306 | PEN_AXIS => 0x1307
  | CAMERA_DEVICE_ADDED => 0x1400 | CAMERA_DEVICE_REMOVED => 0x1401
  | CAMERA_DEVICE_APPROVED => 0x1402 | CAMERA_DEVICE_DENIED => 0x1403
  | RENDER_TARGETS_RESET => 0x2000 | RENDER_DEVICE_RESET => 0x2001
  | RENDER_DEVICE_LOST => 0x2002
  | USER => 0x8000
  | LAST => 0xFFFF
  end.

Definition to_byte (n : Z) : byte :=
  match Byte.of_N (Z.to_N (n mod 256)) with
  | Some b => b
  | None => x00
  end.

(** A 128-byte record with tag [t] (low byte first) and zeros after it. *)
Definition record_with_tag (t : Z) : list byte :=
  [to_byte t; to_byte (t / 256); to_byte (t / 65536);
   to_byte (t / 16777216)] ++ repeat x00 124.

(** A struct codec that keeps what it is given: reading pairs the getter
    with the bytes, writing lays the three header fields down as bytes. *)
Definition read (p : Projection) (bs : list byte)
  : Projection * list byte := (p, bs).

Definition write (r : CommonEvent) (old : list byte) : list byte :=
  [to_byte (ev_type r); to_byte (ev_type r / 256);
   to_byte (ev_type r / 65536); to_byte (ev_type r / 16777216);
   to_byte (ev_reserved r); x00; x00; x00; to_byte (ev_timestamp r)]
  ++ skipn 9 old.

(** A batch of capacity 2 holding one event. *)
Definition batch : EventArray.t :=
  {| EventArray.buf := record_with_tag 0x100 ++ repeat x00 128;
     EventArray.numEvents := 1;
     EventArray.maxEvents := 2 |}.

(** The same batch filled up. *)
Definition full_batch : EventArray.t :=
  {| EventArray.buf := record_with_tag 0x300 ++ record_with_tag 0x100;
     EventArray.numEvents := 2;
     EventArray.maxEvents := 2 |}.

(** A callback that pushes once on the array it is handed and then
    throws. *)
Definition push_then_throw : EventArray.callback :=
  fun a => (Throw (Error "stop"), snd (EventArray.push a)).

(** A [fold] callback that pushes once and goes on while the index is
    below 1. *)
Definition push_and_continue : EventArray.fold_callback :=
  fun a i => (Return (i <? 1), snd (EventArray.push a)).


(** An engine that has up to 4 GiB for a buffer. *)
Definition allocates (byteLength : Z) : bool := byteLength <=? 2 ^ 32.

(** [new EventArray(2)], and a session on it. *)
Definition fresh_batch : EventArray.t :=
  {| EventArray.buf := repeat x00 256;
     EventArray.numEvents := 0;
     EventArray.maxEvents := 2 |}.

(** [new EventArray(1.5)]: a buffer of 192 bytes. *)
Definition fractional_batch : EventArray.t :=
  {| EventArray.buf := repeat x00 192;
     EventArray.numEvents := 0;
     EventArray.maxEvents := Number.Finite (3 # 2) |}.

Definition session : list EventArray.operation :=
  [EventArray.Push;
   EventArray.Get 0 push_then_throw;
   EventArray.Fold push_and_continue;
   EventArray.ReadDt;
   EventArray.PushVia (write (mkCommonEvent 0x100 0 0));
   EventArray.Push;
   EventArray.Get 1
     (EventArray.scripted
        [EventArray.Push; EventArray.Get 0 push_then_throw]
        (Return tt));
   EventArray.Get (-1) push_then_throw].

End Sample.

(** * More of the event code *)

(** ** The tag a variant push fills in *)

(** The [type:] entry of the object literal of [pushX], by the getter X it
    goes with: the variants whose parameter is a [PartialCommon] name one,
    those whose parameter is a [PartialComm_T] take the tag from the
    caller. *)
Definition implied_type (p : Projection) : option EventTypeName :=
  match p with
  | textEditing => Some TEXT_EDITING
  | textEditingCandidates => Some TEXT_EDITING_CANDIDATES
  | textInput => Some TEXT_INPUT
  | mouseMotion => Some MOUSE_MOTION
  | mouseWheel => Some MOUSE_WHEEL
  | joyAxis => Some JOYSTICK_AXIS_MOTION
  | joyBall => Some JOYSTICK_BALL_MOTION
  | joyHat => Some JOYSTICK_HAT_MOTION
  | joyBattery => Some JOYSTICK_BATTERY_UPDATED
  | gamepadAxis => Some GAMEPAD_AXIS_MOTION
  | gamepadSensor => Some GAMEPAD_SENSOR_UPDATE
  | penMotion => Some PEN_MOTION
  | penAxis => Some PEN_AXIS
  | clipboard => Some CLIPBOARD_UPDATE
  | sensor => Some SENSOR_UPDATE
  | quit => Some QUIT
  | common | display | window | keyboardDevice | keyboard | mouseDevice
  | mouseButton | joyButton | joyDevice | gamepadButton | gamepadDevice
  | gamepadTouchpad | audioDevice | cameraDevice | render | touchFinger
  | pinchFinger | penProximity | penTouch | penButton | drop | user => None
  end.

Definition Projection_eq_dec (p q : Projection) : {p = q} + {p <> q}.
Proof. decide equality. Defined.

(** The [case] labels of [toObject] that return the getter [p]. *)
Definition labels_of (p : Projection) : list EventTypeName :=
  map fst
      (filter (fun c => if Projection_eq_dec (snd c) p then true else false)
              switch_cases).

(** The values of the [case] labels, in source order. *)
Definition label_values (EventType : EventTypeName -> Z) : list Z :=
  map (fun c => EventType (fst c)) switch_cases.

(** ** Slots of a batch *)

(** The bytes of record [j] of a batch: what a view at offset [j * 128]
    shows. *)
Definition slot (j : Z) (a : EventArray.t) : list byte :=
  view_bytes (EventArray.buf a)
             {| byteOffset := j * SizeOfSdlEvent;
                byteLength := SizeOfSdlEvent |}.

(** A batch as construction with an integer capacity and the operations
    leave it: the capacity an integer, cursor within bounds, buffer of
    [maxEvents * 128] bytes. *)
Definition well_formed (a : EventArray.t) : Prop :=
  exists m : Z,
    EventArray.maxEvents a = Number.of_Z m
    /\ 0 <= EventArray.numEvents a <= m
    /\ List.length (EventArray.buf a) = Z.to_nat (m * SizeOfSdlEvent).

(** Calling [f] on the records at [indices], one after the other, each
    time with the cursor on the record, until [f] returns false or
    throws. *)
Fixpoint visit (f : EventArray.fold_callback) (indices : list Z)
    (a : EventArray.t) : completion unit * EventArray.t :=
  match indices with
  | [] => (Return tt, a)
  | i :: rest =>
      let '(c, a') := f (EventArray.set_numEvents i a) i in
      match c with
      | Throw x => (Throw x, a')
      | Return false => (Return tt, a')
      | Return true => visit f rest a'
      end
  end.

(** The indices [0 .. n - 1]. *)
Definition indices_below (n : Z) : list Z :=
  map Z.of_nat (seq 0 (Z.to_nat n)).

(** Strictly increasing lists of integers. *)
Fixpoint increasing (l : list Z) : bool :=
  match l with
  | [] => true
  | x :: rest =>
      match rest with
      | [] => true
      | y :: _ => (x <? y) && increasing rest
      end
  end.

(** ** The registry of event watchers *)

Module Watchers.

(** A closure and a pointer object are what [===] compares: identities.
    An identity is an integer here; [null] is the pointer 0. *)
Definition EventFilter : Type := Z.
Definition PointerValue : Type := Z.

(** A [Deno.UnsafeCallback]: the native function pointer made for a
    closure. *)
Record UnsafeCallback : Type := { pointer : PointerValue }.

(** An entry of [eventWatchers.map]. *)
Record watcher : Type := mk
  { filter : EventFilter; userdata : PointerValue; callback : UnsafeCallback }.

(** [i.filter === filter && i.userdata === userdata]. *)
Definition same (f : EventFilter) (u : PointerValue) (i : watcher) : bool :=
  (filter i =? f) && (userdata i =? u).

(** [Array.prototype.findIndex]: the first position that satisfies the
    test, or -1. *)
Fixpoint findIndex {A : Type} (test : A -> bool) (l : list A) : Z :=
  match l with
  | [] => -1
  | x :: rest =>
      if test x then 0
      else let i := findIndex test rest in
           if i =? -1 then -1 else i + 1
  end.

(** [splice(index, 1)]. *)
Definition splice_one {A : Type} (index : Z) (l : list A) : list A :=
  firstn (Z.to_nat index) l ++ skipn (Z.to_nat index + 1) l.

(** [eventWatchers.add]: [this.map.push(...)]. *)
Definition add (f : EventFilter) (u : PointerValue) (cb : UnsafeCallback)
    (map : list watcher) : list watcher :=
  map ++ [{| filter := f; userdata := u; callback := cb |}].

(** [eventWatchers.get]: [this.map.find(...)?.callback ?? null]. *)
Definition get (f : EventFilter) (u : PointerValue) (map : list watcher)
  : option UnsafeCallback :=
  match find (same f u) map with
  | Some i => Some (callback i)
  | None => None
  end.

(** [eventWatchers.remove]. The position [findIndex] returns, when it is
    not -1, is one of the array, so [this.map[index]] is an entry. *)
Definition remove (f : EventFilter) (u : PointerValue) (map : list watcher)
  : option UnsafeCallback * list watcher :=
  let index := findIndex (same f u) map in
  if negb (index =? -1) then
    match nth_error map (Z.to_nat index) with
    | Some i => (Some (callback i), splice_one index map)
    | None => (None, map)
    end
  else (None, map).

Section Static.
(** The native side, and what the runtime gives: a callback made for a
    closure, its release, and the error value [SdlError] builds. *)
Variable World : Type.
Variable createCb : EventFilter -> World -> UnsafeCallback * World.
Variable close : UnsafeCallback -> World -> World.
Variable setEventFilter : PointerValue -> PointerValue -> World -> World.
Variable addEventWatch : PointerValue -> PointerValue -> World -> bool * World.
Variable removeEventWatch : PointerValue -> PointerValue -> World -> World.
Variable filterEvents : PointerValue -> PointerValue -> World -> World.
Variable SdlError : string -> World -> exn.

(** The module-level registry and the native side. *)
Definition state : Type := list watcher * World.

(** [Event.setFilter]. *)
Definition setFilter (f : EventFilter) (u : PointerValue) (s : state) : state :=
  let '(cb, w1) := createCb f (snd s) in
  let w2 := setEventFilter (pointer cb) u w1 in
  (add f u cb (fst s), w2).

(** [Event.setFilterRaw]. *)
Definition setFilterRaw (f u : PointerValue) (s : state) : state :=
  (fst s, setEventFilter f u (snd s)).

(** [Event.addWatch]. *)
Definition addWatch (f : EventFilter) (u : PointerValue) (s : state)
  : completion unit * state :=
  let '(watcher, w1) := createCb f (snd s) in
  let '(ok, w2) := addEventWatch (pointer watcher) u w1 in
  if negb ok then
    let w3 := close watcher w2 in
    (Throw (SdlError "addEventWatch" w3), (fst s, w3))
  else (Return tt, (add f u watcher (fst s), w2)).

(** [Event.removeWatch]. *)
Definition removeWatch (f : EventFilter) (u : PointerValue) (s : state)
  : state :=
  let '(watcher, map') := remove f u (fst s) in
  match watcher with
  | None => (map', snd s)
  | Some cb => (map', removeEventWatch (pointer cb) u (snd s))
  end.

(** [Event.filter]: the callback lives for the one call. *)
Definition filter_once (f : EventFilter) (u : PointerValue) (s : state)
  : state :=
  let '(cb, w1) := createCb f (snd s) in
  let w2 := filterEvents (pointer cb) u w1 in
  (fst s, close cb w2).
End Static.

End Watchers.

(** ** Bulk queue access *)

Module Peep.

Section Native.
Variable World : Type.

(** [SDL.peepEvents] handed a buffer: the count it returns (-1 on
    failure), the buffer as it leaves it, the native side after. *)
Variable peepEvents :
  list byte -> Number.t -> Z -> Z -> Z -> World -> Z * list byte * World.

(** [SDL.peepEvents] handed [null]. *)
Variable peepEvents_null : Z -> Z -> Z -> Z -> World -> Z * World.

(** [SDL.SDL_EventAction.ADDEVENT]. *)
Variable ADDEVENT : Z.
Variable SdlError : string -> World -> exn.

(** [Event.peep(events: number, ...)]. *)
Definition peep_count (events action minType maxType : Z) (w : World)
  : completion Z * World :=
  let '(r, w') := peepEvents_null events action minType maxType w in
  if r =? -1 then (Throw (SdlError "peepEvents" w'), w')
  else (Return r, w').

(** [Event.peep(events: EventArray, ...)]. *)
Definition peep (events : EventArray.t) (action minType maxType : Z)
    (w : World) : completion Z * EventArray.t * World :=
  let '(r, b, w') :=
    peepEvents (EventArray.buf events) (EventArray.maxEvents events)
               action minType maxType w in
  let events1 := EventArray.set_buf b events in
  if r =? -1 then (Throw (SdlError "peepEvents" w'), events1, w')
  else if negb (action =? ADDEVENT)
       then (Return r, EventArray.set_numEvents r events1, w')
       else (Return r, events1, w').
End Native.

End Peep.

(** ** Runs of the generator, with what they leave *)

Module Iteration.

Section Run.
Variable EventType : EventTypeName -> Z.
Variable littleEndian : bool.
Variable World : Type.
Variable pollEvent : list byte -> World -> bool * list byte * World.
Variable Time : Type.
Variable Date_now : World -> Time.
Variable plus minus : Time -> Time -> Time.
Variable positive : Time -> bool.
Variable zero : Time.
Variable interval : Time.
Variable onIdle :
  option (Event.t -> World -> completion unit * Event.t * World).

(** [Event.run], returning also the state of the generator, the object
    and the native side at the end. *)
Fixpoint run_to (between : list (Event.t -> World -> Event.t * World))
    (st : Event.state Time) (e : Event.t) (w : World)
  : list (Event.action Time) * Event.state Time * Event.t * World :=
  match between with
  | [] => ([], st, e, w)
  | env :: rest =>
      let '(e0, w0) := env e w in
      let '(acts, st1, e1, w1) :=
        Event.resume EventType littleEndian World pollEvent Time Date_now
                     plus minus positive zero interval onIdle st e0 w0 in
      let '(more, st2, e2, w2) := run_to rest st1 e1 w1 in
      (acts ++ more, st2, e2, w2)
  end.

(** [nextFrame], while the generator has one. *)
Definition deadline (st : Event.state Time) : option Time :=
  match st with
  | Event.AtYield _ nextFrame => Some nextFrame
  | Event.AtSleep nextFrame => Some nextFrame
  | Event.NotStarted => None
  | Event.Completed => None
  end.

Definition is_sleep (a : Event.action Time) : bool :=
  match a with Event.Slept _ => true | _ => false end.

(** How many times a trace sleeps. *)
Definition sleeps (trace : list (Event.action Time)) : nat :=
  List.length (filter is_sleep trace).

(** [nextFrame += interval], [k] times. *)
Fixpoint frames_later (k : nat) (d : Time) : Time :=
  match k with
  | O => d
  | S k' => frames_later k' (plus d interval)
  end.

(** The generator polls when it is next resumed. *)
Definition polls_next (st : Event.state Time) : Prop :=
  match st with
  | Event.NotStarted => True
  | Event.AtSleep _ => True
  | Event.AtYield is_quit _ => is_quit = false
  | Event.Completed => False
  end.

(** The frame deadline the generator works with when resumed on the
    native side [w]: a fresh generator sets it from the clock. *)
Definition frame_due (st : Event.state Time) (w : World) : Time :=
  match st with
  | Event.NotStarted => plus (Date_now w) interval
  | Event.AtYield _ nextFrame => nextFrame
  | Event.AtSleep nextFrame => nextFrame
  | Event.Completed => zero
  end.
End Run.

(** The object after a successful poll that loaded the record [r]. *)
Definition loaded (littleEndian : bool) (r : list byte) : Event.t :=
  {| Event.record := r; Event.type := getUint32 littleEndian r 0 |}.

(** What the trace shows when the records [rs] are polled and yielded one
    after the other. *)
Definition yields {Time : Type} (littleEndian : bool) (rs : list (list byte))
  : list (Event.action Time) :=
  flat_map (fun r => [Event.Polled true; Event.Yielded (loaded littleEndian r)])
           rs.

(** The object the generator holds after the records [rs] were polled. *)
Definition after_polling (littleEndian : bool) (rs : list (list byte))
    (e : Event.t) : Event.t :=
  fold_left (fun _ r => loaded littleEndian r) rs e.

(** A consumer that leaves the object and the native side alone. *)
Definition undisturbed {World : Type} (e : Event.t) (w : World)
  : Event.t * World := (e, w).

End Iteration.

(** ** More concrete data for the examples *)

Module MoreSamples.

(** A native side that counts the callbacks made, accepts every watch
    ([addEventWatch]) or refuses every watch ([refuse]). *)
Definition createCb (f : Watchers.EventFilter) (made : Z)
  : Watchers.UnsafeCallback * Z :=
  ({| Watchers.pointer := 1000 + made |}, made + 1).

Definition close (cb : Watchers.UnsafeCallback) (made : Z) : Z := made.

Definition addEventWatch (p u : Watchers.PointerValue) (made : Z)
  : bool * Z := (true, made).

Definition refuse (p u : Watchers.PointerValue) (made : Z)
  : bool * Z := (false, made).

Definition removeEventWatch (p u : Watchers.PointerValue) (made : Z) : Z :=
  made.

Definition SdlError (what : string) (made : Z) : exn := Error what.

(** Two registrations of the pair (7, 0) around one of the pair (8, 0). *)
Definition registry : list Watchers.watcher :=
  [Watchers.mk 8 0 {| Watchers.pointer := 1000 |};
   Watchers.mk 7 0 {| Watchers.pointer := 1001 |};
   Watchers.mk 7 0 {| Watchers.pointer := 1002 |}].

(** A native [peepEvents] that reports one event, if asked for any, and
    leaves the buffer alone. *)
Definition peepEvents (b : list byte) (numevents : Number.t)
    (action minType maxType : Z) (q : NativeQueue.queue)
  : Z * list byte * NativeQueue.queue :=
  (if (1 <=? numevents)%number then 1 else 0, b, q).

(** An idle callback that does nothing. *)
Definition onIdle (e : Event.t) (q : NativeQueue.queue)
  : completion unit * Event.t * NativeQueue.queue := (Return tt, e, q).

End MoreSamples.

(** * The snake of [examples/snake.ts] *)

Module Snake.

Definition snakeGameWidth : Z := 24.
Definition snakeGameHeight : Z := 18.

Inductive SnakeCell : Type := Nothing | SRIGHT | SUP | SLEFT | SDOWN | FOOD.

Inductive SnakeDirection : Type := RIGHT | UP | LEFT | DOWN.

Record SnakePos : Type := pos { x : Z; y : Z }.

Inductive SnakeState : Type :=
| Init | Playing | GameOver | Congratulation | Pausing.

(** [(dir + 1) as SnakeCell]. *)
Definition cell_of (dir : SnakeDirection) : SnakeCell :=
  match dir with
  | RIGHT => SRIGHT
  | UP => SUP
  | LEFT => SLEFT
  | DOWN => SDOWN
  end.

(** The array [cells]: what it holds under each integer key ([None] for
    [undefined]) and its [length]. Writing at or past the length extends
    the array; writing under a negative key adds a property. *)
Record Cells : Type := mkCells { at_key : Z -> option SnakeCell; length : Z }.

Definition write (k : Z) (c : SnakeCell) (cs : Cells) : Cells :=
  {| at_key := fun k' => if k' =? k then Some c else at_key cs k';
     length := if k >=? length cs then k + 1 else length cs |}.

(** [cells.fill(SnakeCell.Nothing, 0, cells.length)]. *)
Definition fill_Nothing (cs : Cells) : Cells :=
  {| at_key := fun k => if (0 <=? k) && (k <? length cs)
                        then Some Nothing else at_key cs k;
     length := length cs |}.

(** [Array.from({ length: width * height }, () => SnakeCell.Nothing)]. *)
Definition fresh_cells : Cells :=
  {| at_key := fun k => if (0 <=? k) && (k <? snakeGameWidth * snakeGameHeight)
                        then Some Nothing else None;
     length := snakeGameWidth * snakeGameHeight |}.

Definition key (p : SnakePos) : Z := y p * snakeGameWidth + x p.

Record t : Type := mk
  { cells : Cells;
    head : SnakePos;
    tail : SnakePos;
    next_dir : SnakeDirection;
    inhibit_tail_step : Z;
    occupied_cells : Z;
    state : SnakeState;
    lastStep : Z;
    step_count : Z }.

Definition cellAt (s : t) (p : SnakePos) : option SnakeCell :=
  at_key (cells s) (key p).

Definition set_cells (cs : Cells) (s : t) : t :=
  mk cs (head s) (tail s) (next_dir s) (inhibit_tail_step s)
     (occupied_cells s) (state s) (lastStep s) (step_count s).

Definition set_state (st : SnakeState) (s : t) : t :=
  mk (cells s) (head s) (tail s) (next_dir s) (inhibit_tail_step s)
     (occupied_cells s) st (lastStep s) (step_count s).

Definition set_next_dir (dir : SnakeDirection) (s : t) : t :=
  mk (cells s) (head s) (tail s) dir (inhibit_tail_step s)
     (occupied_cells s) (state s) (lastStep s) (step_count s).

Definition setCell (p : SnakePos) (c : SnakeCell) (s : t) : t :=
  set_cells (write (key p) c (cells s)) s.

Definition center : SnakePos :=
  {| x := snakeGameWidth / 2; y := snakeGameHeight / 2 |}.

(** [init()]: it leaves the counters and [lastStep] as they are. *)
Definition init (s : t) : t :=
  mk (fill_Nothing (cells s)) center center RIGHT (inhibit_tail_step s)
     (occupied_cells s) Init (lastStep s) (step_count s).

(** [new SnakeContext()]. *)
Definition new : t :=
  init (mk fresh_cells center center RIGHT 0 0 Init 0 0).

Definition is_cell (c : SnakeCell) (o : option SnakeCell) : bool :=
  match o, c with
  | Some Nothing, Nothing | Some SRIGHT, SRIGHT | Some SUP, SUP
  | Some SLEFT, SLEFT | Some SDOWN, SDOWN | Some FOOD, FOOD => true
  | _, _ => false
  end.

(** [redir(dir)]. *)
Definition redir (dir : SnakeDirection) (s : t) : t :=
  let c := cellAt s (head s) in
  let allowed :=
    match dir with
    | RIGHT => negb (is_cell SLEFT c)
    | LEFT => negb (is_cell SRIGHT c)
    | UP => negb (is_cell SDOWN c)
    | DOWN => negb (is_cell SUP c)
    end in
  if allowed then set_next_dir dir s else s.

(** [cellsFull()]. *)
Definition cellsFull (s : t) : bool :=
  occupied_cells s =? length (cells s).

(** [createFood()]: [draws] are the positions the random numbers give, in
    the order they are drawn; the first one on a [Nothing] cell gets the
    food. With no such draw the loop is still running: [None]. *)
Fixpoint createFood (draws : list SnakePos) (s : t)
  : option (t * list SnakePos) :=
  match draws with
  | [] => None
  | p :: rest =>
      if is_cell Nothing (cellAt s p)
      then Some (setCell p FOOD s, rest)
      else createFood rest s
  end.

(** [toggle_pause()]. *)
Definition toggle_pause (s : t) : t :=
  match state s with
  | Playing => set_state Pausing s
  | Pausing => set_state Playing s
  | _ => s
  end.

Definition is_playing (st : SnakeState) : bool :=
  match st with Playing => true | _ => false end.

(** One cell on, the way of [dir]. *)
Definition forward (dir : SnakeDirection) (p : SnakePos) : SnakePos :=
  match dir with
  | RIGHT => {| x := x p + 1; y := y p |}
  | UP => {| x := x p; y := y p - 1 |}
  | LEFT => {| x := x p - 1; y := y p |}
  | DOWN => {| x := x p; y := y p + 1 |}
  end.

(** The [switch (ct)] that moves the tail. *)
Definition follow (ct : option SnakeCell) (p : SnakePos) : SnakePos :=
  match ct with
  | Some SRIGHT => forward RIGHT p
  | Some SUP => forward UP p
  | Some SLEFT => forward LEFT p
  | Some SDOWN => forward DOWN p
  | _ => p
  end.

Definition off_board (p : SnakePos) : bool :=
  (x p <? 0) || (x p >=? snakeGameWidth)
  || (y p <? 0) || (y p >=? snakeGameHeight).

(** The first half of [step()]: count the step, presume the game over,
    and move the tail forward when [--inhibit_tail_step] reaches 0. *)
Definition step_tail (s : t) : t :=
  let inhibit := inhibit_tail_step s - 1 in
  if inhibit =? 0 then
    mk (write (key (tail s)) Nothing (cells s))
       (head s) (follow (cellAt s (tail s)) (tail s)) (next_dir s)
       (inhibit + 1) (occupied_cells s) GameOver (lastStep s)
       (step_count s + 1)
  else
    mk (cells s) (head s) (tail s) (next_dir s) inhibit (occupied_cells s)
       GameOver (lastStep s) (step_count s + 1).

(** [step()]: its result, the context after, the draws left. *)
Definition step (draws : list SnakePos) (s : t)
  : option (bool * t * list SnakePos) :=
  if negb (is_playing (state s)) then Some (false, s, draws)
  else
    let s1 := step_tail s in
    let prev_head := head s1 in
    let s2 :=
      mk (cells s1) (forward (next_dir s1) prev_head) (tail s1) (next_dir s1)
         (inhibit_tail_step s1) (occupied_cells s1) (state s1) (lastStep s1)
         (step_count s1) in
    if off_board (head s2) then Some (false, s2, draws)
    else
      let cell := cellAt s2 (head s2) in
      let s3 :=
        setCell (head s2) (cell_of (next_dir s2))
                (setCell prev_head (cell_of (next_dir s2)) s2) in
      if negb (is_cell FOOD cell) && negb (is_cell Nothing cell)
      then Some (false, s3, draws)
      else if is_cell FOOD cell then
        if cellsFull s3 then Some (false, set_state Congratulation s3, draws)
        else
          match createFood draws s3 with
          | None => None
          | Some (s4, draws') =>
              Some (true,
                    mk (cells s4) (head s4) (tail s4) (next_dir s4)
                       (inhibit_tail_step s4 + 1) (occupied_cells s4 + 1)
                       Playing (lastStep s4) (step_count s4),
                    draws')
          end
      else Some (true, set_state Playing s3, draws).

(** [createFood(); occupied_cells++], [n] times. *)
Fixpoint feed (n : nat) (draws : list SnakePos) (s : t)
  : option (t * list SnakePos) :=
  match n with
  | O => Some (s, draws)
  | S n' =>
      match createFood draws s with
      | None => None
      | Some (s1, draws1) =>
          feed n' draws1
               (mk (cells s1) (head s1) (tail s1) (next_dir s1)
                   (inhibit_tail_step s1) (occupied_cells s1 + 1) (state s1)
                   (lastStep s1) (step_count s1))
      end
  end.

(** [start()], at the time [now] of [Date.now()]. *)
Definition start (now : Z) (draws : list SnakePos) (s : t)
  : option (t * list SnakePos) :=
  let s0 := init s in
  let s1 :=
    mk (write (key (tail s0)) SRIGHT (cells s0)) (head s0) (tail s0)
       (next_dir s0) 4 (4 - 1) Playing (lastStep s0) 0 in
  match feed 4 draws s1 with
  | None => None
  | Some (s2, draws') =>
      Some (mk (cells s2) (head s2) (tail s2) (next_dir s2)
               (inhibit_tail_step s2) (occupied_cells s2) (state s2)
               now (step_count s2),
            draws')
  end.

(** An array of [width * height] cells and nothing else. *)
Definition board (cs : Cells) : Prop :=
  length cs = snakeGameWidth * snakeGameHeight
  /\ forall k, k < 0 \/ snakeGameWidth * snakeGameHeight <= k ->
               at_key cs k = None.

(** The keys of the cells that hold [c]. *)
Definition keys_with (c : SnakeCell) (cs : Cells) : list Z :=
  filter (fun k => is_cell c (at_key cs k)) (indices_below (length cs)).

(** The snake may not turn back on itself: [next_dir] is not the opposite
    of the way the head cell points. *)
Definition opposite (dir : SnakeDirection) : SnakeDirection :=
  match dir with
  | RIGHT => LEFT
  | LEFT => RIGHT
  | UP => DOWN
  | DOWN => UP
  end.

Definition no_turning_back (s : t) : Prop :=
  is_cell (cell_of (opposite (next_dir s))) (cellAt s (head s)) = false.

End Snake.

(** ** Concrete games for the examples *)

Module SnakeSamples.

(** The positions the random numbers give, and the game they start. *)
Definition draws : list Snake.SnakePos :=
  [Snake.pos 1 1; Snake.pos 2 2; Snake.pos 3 3; Snake.pos 4 4].

Definition started : Snake.t :=
  match Snake.start 1000 draws Snake.new with
  | Some (s, _) => s
  | None => Snake.new
  end.

(** The game one step later. *)
Definition stepped : Snake.t :=
  match Snake.step [] started with
  | Some (_, s, _) => s
  | None => started
  end.

(** The same game with the head on the right-hand edge. *)
Definition at_wall : Snake.t :=
  Snake.mk (Snake.cells started) (Snake.pos 23 9) (Snake.tail started)
           Snake.RIGHT 4 7 Snake.Playing 1000 0.

End SnakeSamples.


(** * Properties *)

(** ** Lists and views *)

Lemma find_first {A} (f : A -> bool) (l : list A) (c : A) :
  find f l = Some c ->
  exists before behind,
    l = before ++ c :: behind /\ f c = true
    /\ forall x, In x before -> f x = false.
Proof.
  induction l as [|x l IH]; simpl; [discriminate|].
  destruct (f x) eqn:Hx.
  - intros [= <-]. exists [], l. repeat split; auto. intros y [].
  - intros Hfind. destruct (IH Hfind) as (before & behind & -> & Hc & Hbefore).
    exists (x :: before), behind. repeat split; auto.
    intros y [<-|Hy]; auto.
Qed.

Lemma length_fit (n : nat) (l : list byte) : List.length (fit n l) = n.
Proof.
  unfold fit. rewrite length_firstn, length_app, repeat_length. lia.
Qed.

Lemma length_view_store (mem : list byte) (v : DataView) (new : list byte) :
  0 <= byteOffset v -> 0 <= byteLength v ->
  byteOffset v + byteLength v <= Z.of_nat (List.length mem) ->
  List.length (view_store mem v new) = List.length mem.
Proof.
  intros Hoff Hlen Hin. unfold view_store.
  rewrite !length_app, length_fit, length_firstn, length_skipn. lia.
Qed.

Lemma new_DataView_inside (n offset len : Z) (v : DataView) :
  new_DataView n offset len = Return v ->
  byteOffset v = offset /\ byteLength v = len
  /\ 0 <= offset /\ 0 <= len /\ offset + len <= n.
Proof.
  unfold new_DataView.
  destruct ((offset <? 0) || (n <? offset)) eqn:H1; [discriminate|].
  destruct ((len <? 0) || (n <? offset + len)) eqn:H2; [discriminate|].
  intros [= <-]. simpl.
  apply orb_false_iff in H1 as [H1a H1b]. apply orb_false_iff in H2 as [H2a H2b].
  apply Z.ltb_ge in H1a, H1b, H2a, H2b. lia.
Qed.

Lemma getUint32_range (le : bool) (bs : list byte) (off : nat) :
  0 <= getUint32 le bs off < 2 ^ 32.
Proof.
  assert (Hb : forall i, 0 <= byte_at bs i < 256).
  { intro i. unfold byte_at. pose proof (Byte.to_N_bounded (nth i bs x00)). lia. }
  unfold getUint32.
  pose proof (Hb off). pose proof (Hb (off + 1)%nat).
  pose proof (Hb (off + 2)%nat). pose proof (Hb (off + 3)%nat).
  change (2 ^ 32) with 4294967296.
  destruct le; lia.
Qed.

(** ** The dispatch of [toObject] *)

Section ToObject.
Variable EventType : EventTypeName -> Z.
Variable Obj : Type.
Variable read : Projection -> list byte -> Obj.
Variable World : Type.
Variable pushEvent : list byte -> World -> bool * list byte * World.

Local Abbreviation toObject :=
  (EventUnion.toObject (I := Event.impl World pushEvent) EventType Obj read).

Local Abbreviation dispatch t := (EventUnion.dispatch EventType (Num t)).

(** What a getter reads on an [Event]: the first 128 bytes of its record. *)
Local Abbreviation shown e :=
  (firstn (Z.to_nat SizeOfSdlEvent) (Event.record e)).

Lemma toObject_Event (e : Event.t) (w : World) :
  toObject (e, w) = Return (read (dispatch (Event.type e)) (shown e)).
Proof. reflexivity. Qed.

Lemma dispatch_cases (t : Z) :
  (exists before name behind,
      switch_cases = before ++ (name, dispatch t) :: behind
      /\ EventType name = t
      /\ forall c, In c before -> EventType (fst c) <> t)
  \/ ((forall c, In c switch_cases -> EventType (fst c) <> t)
      /\ ((EventType USER <= t <= EventType LAST /\ dispatch t = user)
          \/ (~ EventType USER <= t <= EventType LAST
              /\ dispatch t = common))).
Proof.
  unfold EventUnion.dispatch.
  destruct (find (fun c => EventType (fst c) =? t) switch_cases)
    as [[name p]|] eqn:Hfind.
  - left. apply find_first in Hfind
      as (before & behind & Hsplit & Hc & Hbefore).
    exists before, name, behind. simpl in Hc. apply Z.eqb_eq in Hc.
    repeat split; auto.
    intros c Hin. apply Z.eqb_neq. exact (Hbefore c Hin).
  - right. split.
    + intros c Hin. apply Z.eqb_neq.
      exact (find_none _ _ Hfind c Hin).
    + destruct ((EventType USER <=? t) && (t <=? EventType LAST)) eqn:Hr.
      * left. apply andb_true_iff in Hr as [H1 H2].
        apply Z.leb_le in H1, H2. auto.
      * right. split; auto. intros [H1 H2].
        apply Z.leb_le in H1, H2. rewrite H1, H2 in Hr. discriminate.
Qed.

(** C1. On an [Event], whatever the value of its [type] tag (every
    unsigned 32-bit value included), [toObject()] returns and does not
    throw. What it returns is one getter applied to the record: the getter
    of the first [case] label equal to the tag when there is one;
    otherwise [user] for a tag in [USER .. LAST], and [common] for a tag
    outside every known range. *)
Theorem toObject_total (e : Event.t) (w : World) :
  exists p,
    toObject (e, w) = Return (read p (shown e))
    /\ ((exists before name behind,
            switch_cases = before ++ (name, p) :: behind
            /\ EventType name = Event.type e
            /\ forall c, In c before -> EventType (fst c) <> Event.type e)
        \/ ((forall c, In c switch_cases -> EventType (fst c) <> Event.type e)
            /\ ((EventType USER <= Event.type e <= EventType LAST
                 /\ p = user)
                \/ (~ EventType USER <= Event.type e <= EventType LAST
                    /\ p = common)))).
Proof.
  exists (dispatch (Event.type e)). split.
  - apply toObject_Event.
  - apply dispatch_cases.
Qed.

(** C2. A tag in [EventType.USER .. EventType.LAST] that is the value of no
    [case] label goes to the [default] clause, and [toObject()] returns
    the [user] getter's reading of the record, which is not the [common]
    one. *)
Theorem toObject_user_range (e : Event.t) (w : World) :
  EventType USER <= Event.type e <= EventType LAST ->
  (forall name, In name (map fst switch_cases) ->
                EventType name <> Event.type e) ->
  toObject (e, w) = Return (read user (shown e))
  /\ dispatch (Event.type e) = user
  /\ user <> common.
Proof.
  intros Hrange Hfresh.
  assert (Hd : dispatch (Event.type e) = user).
  { destruct (dispatch_cases (Event.type e))
      as [(before & name & behind & Hsplit & Hname & _)
         | (_ & [[_ Hu] | [Hout _]])]; auto.
    - exfalso. apply (Hfresh name); auto.
      rewrite Hsplit, map_app. apply in_or_app. right. left. reflexivity.
    - contradiction. }
  split; [|split].
  - rewrite toObject_Event, Hd. reflexivity.
  - exact Hd.
  - discriminate.
Qed.
End ToObject.

(** ** Taking events off the queue *)

Section Taking.
Variable littleEndian : bool.
Variable World : Type.
Variable pollEvent : list byte -> World -> bool * list byte * World.
Variable waitEvent : list byte -> World -> bool * list byte * World.
Variable waitEventTimeout :
  Z -> list byte -> World -> bool * list byte * World.

Local Abbreviation take :=
  (Event.take littleEndian World pollEvent waitEvent waitEventTimeout).

Lemma and_readType_false
    (native : list byte -> World -> bool * list byte * World)
    (e e' : Event.t) (w w' : World) :
  Event.and_readType_ littleEndian World native e w = (false, e', w') ->
  Event.type e' = Event.type e
  /\ fst (fst (native (Event.record e) w)) = false.
Proof.
  unfold Event.and_readType_.
  destruct (native (Event.record e) w) as [[ok r] w1].
  destruct ok; simpl.
  - intros [=].
  - intros [= <- _]. split; reflexivity.
Qed.

Lemma and_readType_true
    (native : list byte -> World -> bool * list byte * World)
    (e e' : Event.t) (w w' : World) :
  Event.and_readType_ littleEndian World native e w = (true, e', w') ->
  Event.type e' = getUint32 littleEndian (Event.record e') 0
  /\ 0 <= Event.type e' < 2 ^ 32.
Proof.
  unfold Event.and_readType_.
  destruct (native (Event.record e) w) as [[ok r] w1].
  destruct ok; simpl.
  - intros [= <- _]. simpl. split; [reflexivity|apply getUint32_range].
  - intros [=].
Qed.

(** C9. When [poll()], [wait()] or [waitTimeout(ms)] returns false, the
    cached [type] of the [Event] is the one it had before the call: the
    native call returned false and [readType_] did not run. This holds
    whatever the native calls do. *)
Theorem false_keeps_type (m : Event.taking) (e e' : Event.t) (w w' : World) :
  take m e w = (false, e', w') ->
  Event.type e' = Event.type e.
Proof.
  destruct m; simpl; intros H;
    apply and_readType_false in H; tauto.
Qed.
End Taking.

Section PollOnQueue.
Variable littleEndian : bool.

Local Abbreviation poll :=
  (Event.poll littleEndian NativeQueue.queue NativeQueue.pollEvent).

(** C8. Against the native queue as the spec describes it: on an empty
    queue [poll()] returns false (a plain boolean, nothing is thrown) and
    leaves object and queue as they were; with an event [r] at the front
    it returns true, the record of the [Event] is [r], the cached tag is
    the tag of [r], and [r] is gone from the queue. *)
Theorem poll_on_queue (e : Event.t) :
  poll e [] = (false, e, [])
  /\ forall (r : list byte) (q : NativeQueue.queue),
      poll e (r :: q)
      = (true,
         {| Event.record := r; Event.type := getUint32 littleEndian r 0 |},
         q).
Proof.
  split.
  - destruct e. reflexivity.
  - intros r q. reflexivity.
Qed.
End PollOnQueue.

(** ** The generator [iter] *)

Section Iter.
Variable EventType : EventTypeName -> Z.
Variable littleEndian : bool.
Variable World : Type.
Variable pollEvent : list byte -> World -> bool * list byte * World.
Variable Time : Type.
Variable Date_now : World -> Time.
Variable plus minus : Time -> Time -> Time.
Variable positive : Time -> bool.
Variable zero : Time.
Variable interval : Time.
Variable onIdle : option (Event.t -> World -> completion unit * Event.t * World).

Local Abbreviation resume :=
  (Event.resume EventType littleEndian World pollEvent Time Date_now
                plus minus positive zero interval onIdle).
Local Abbreviation drain :=
  (Event.drain EventType littleEndian World pollEvent Time Date_now
               plus minus positive zero interval onIdle).
Local Abbreviation run :=
  (Event.run EventType littleEndian World pollEvent Time Date_now
             plus minus positive zero interval onIdle).

Local Abbreviation quit_is_last := (Event.quit_is_last EventType).
Local Abbreviation is_yield := (@Event.is_yield Time).

Lemma quit_is_last_app (l r : list (Event.action Time)) :
  forallb (fun a => negb (is_yield a)) l = true ->
  quit_is_last r -> quit_is_last (l ++ r).
Proof.
  induction l as [|a l IH]; simpl; auto.
  intros Hl Hr. apply andb_true_iff in Hl as [Ha Hl].
  destruct a; simpl in Ha; try discriminate; auto.
Qed.

Lemma quit_is_last_split (before behind : list (Event.action Time)) (ev : Event.t) :
  quit_is_last (before ++ Event.Yielded ev :: behind) ->
  Event.type ev = EventType QUIT ->
  Forall (fun a => a = Event.Returned) behind.
Proof.
  induction before as [|a before IH]; simpl.
  - intros [H _]. exact H.
  - destruct a; try exact IH. intros [_ H]. exact (IH H).
Qed.

Lemma run_Completed (between : list (Event.t -> World -> Event.t * World))
    (e : Event.t) (w : World) :
  Forall (fun a => a = Event.Returned) (run between Event.Completed e w).
Proof.
  revert e w. induction between as [|env rest IH]; intros e w; simpl.
  - constructor.
  - destruct (env e w) as [e0 w0]. simpl. constructor; auto.
Qed.

(** The resumption that follows the yield of a quit event returns at once:
    no poll, no idle callback, no sleep; and the generator stays
    finished. *)
Lemma run_after_quit (between : list (Event.t -> World -> Event.t * World))
    (nextFrame : Time) (e : Event.t) (w : World) :
  Forall (fun a => a = Event.Returned)
         (run between (Event.AtYield true nextFrame) e w).
Proof.
  destruct between as [|env rest]; simpl.
  - constructor.
  - destruct (env e w) as [e0 w0]. simpl.
    constructor; auto using run_Completed.
Qed.

(** The shapes of what [drain] does. *)
Lemma drain_shapes (nextFrame : Time) (e : Event.t) (w : World) :
  (exists e1 w1,
      drain nextFrame e w
      = ([Event.Polled true; Event.Yielded e1],
         Event.AtYield (Event.type e1 =? EventType QUIT) nextFrame,
         e1, w1))
  \/ forallb (fun a => negb (is_yield a))
             (fst (fst (fst (drain nextFrame e w)))) = true.
Proof.
  unfold Event.drain.
  destruct (Event.poll littleEndian World pollEvent e w) as [[got e1] w1].
  destruct got.
  - left. exists e1, w1. reflexivity.
  - right. unfold Event.call_onIdle.
    destruct onIdle as [f|].
    + destruct (f e1 w1) as [[c e2] w2]. destruct c; reflexivity.
    + reflexivity.
Qed.

Lemma run_quit_is_last (between : list (Event.t -> World -> Event.t * World))
    (st : Event.state Time) (e : Event.t) (w : World) :
  quit_is_last (run between st e w).
Proof.
  revert st e w. induction between as [|env rest IH]; intros st e w.
  - exact I.
  - simpl. destruct (env e w) as [e0 w0].
    assert (Hdrain : forall nextFrame,
               quit_is_last
                 (let '(acts, st', e', w') := drain nextFrame e0 w0 in
                  acts ++ run rest st' e' w')).
    { intro nextFrame.
      destruct (drain_shapes nextFrame e0 w0) as [(e1 & w1 & ->) | Hno].
      - simpl. split; auto.
        intros Hq. apply Z.eqb_eq in Hq. rewrite Hq.
        apply run_after_quit.
      - destruct (drain nextFrame e0 w0) as [[[acts st'] e'] w'].
        simpl in Hno. apply quit_is_last_app; auto. }
    destruct st as [|is_quit nextFrame|nextFrame|]; simpl.
    + apply Hdrain.
    + destruct is_quit; [simpl; apply IH | apply Hdrain].
    + apply Hdrain.
    + apply IH.
Qed.

(** C3. In every run of [iter(interval, onIdle)], whatever the native
    queue delivers and whatever happens between two resumptions, once the
    generator has yielded an event whose [type] is [EventType.QUIT] all
    that follows is its return: it polls no more, calls [onIdle] no more,
    does not sleep, and yields no further event. *)
Theorem iter_stops_after_quit
    (between : list (Event.t -> World -> Event.t * World))
    (st : Event.state Time) (e : Event.t) (w : World)
    (before behind : list (Event.action Time)) (ev : Event.t) :
  run between st e w = before ++ Event.Yielded ev :: behind ->
  Event.type ev = EventType QUIT ->
  Forall (fun a => a = Event.Returned) behind.
Proof.
  intros Hrun. apply (quit_is_last_split before). rewrite <- Hrun.
  apply run_quit_is_last.
Qed.
End Iter.

(** ** Pushing a pre-populated quit event *)

Section PushQuit.
Variable EventType : EventTypeName -> Z.
Variable write_QuitEvent : QuitEvent -> list byte -> list byte.
Context {S : Type} (I : EventUnion.Impl S).

Local Abbreviation pushQuit_counted :=
  (EventUnion.pushQuit (I := EventUnion.counting I) EventType write_QuitEvent).
Local Abbreviation quit_record := (EventUnion.quit_record EventType).

Lemma quit_record_fields (e : PartialCommon) :
  (forall x, opt_type e = Some x -> ev_type (quit_record e) = x)
  /\ (opt_type e = None -> ev_type (quit_record e) = EventType QUIT)
  /\ (forall x, opt_reserved e = Some x -> ev_reserved (quit_record e) = x)
  /\ (opt_reserved e = None -> ev_reserved (quit_record e) = 0)
  /\ (forall x, opt_timestamp e = Some x -> ev_timestamp (quit_record e) = x)
  /\ (opt_timestamp e = None -> ev_timestamp (quit_record e) = 0).
Proof.
  unfold EventUnion.quit_record; simpl.
  repeat split; intros; match goal with H : _ = _ |- _ => rewrite H end;
    reflexivity.
Qed.

(** Any [pushX] on a receiver whose [dt] hands out a view: one write
    through the view, then one [push] on what was written. *)
Lemma pushVariant_on_view {T : Type} (write : T -> list byte -> list byte)
    (r : T) (s : S) (calls : nat) (v : DataView) :
  EventUnion.dt s = Return v ->
  EventUnion.pushVariant (I := EventUnion.counting I) write r (s, calls)
  = (fst (EventUnion.push
            (EventUnion.set_bytes
               (view_store (EventUnion.bytes s) v
                           (write r (view_bytes (EventUnion.bytes s) v)))
               s)),
     (snd (EventUnion.push
             (EventUnion.set_bytes
                (view_store (EventUnion.bytes s) v
                            (write r (view_bytes (EventUnion.bytes s) v)))
                s)),
      Datatypes.S calls)).
Proof.
  intros Hdt. unfold EventUnion.pushVariant. simpl. rewrite Hdt. reflexivity.
Qed.

(** C7. [pushQuit(e)] on a receiver whose [dt] hands out a view [v] (every
    [Event]; an [EventArray] below capacity): the record written is the
    full quit record that takes each field from [e] where [e] has it and
    otherwise the default [type = EventType.QUIT], [reserved = 0],
    [timestamp = 0]; [write_QuitEvent] lays it down through [v]; then
    [push()] runs on the object so written, once: its completion and
    state are those of that one call, and the count of [push] calls goes
    up by one. *)
Theorem pushQuit_writes_then_pushes_once
    (e : PartialCommon) (s : S) (calls : nat) (v : DataView) :
  EventUnion.dt s = Return v ->
  let r := quit_record e in
  let written :=
    EventUnion.set_bytes
      (view_store (EventUnion.bytes s) v
                  (write_QuitEvent r (view_bytes (EventUnion.bytes s) v)))
      s in
  ((forall x, opt_type e = Some x -> ev_type r = x)
   /\ (opt_type e = None -> ev_type r = EventType QUIT)
   /\ (forall x, opt_reserved e = Some x -> ev_reserved r = x)
   /\ (opt_reserved e = None -> ev_reserved r = 0)
   /\ (forall x, opt_timestamp e = Some x -> ev_timestamp r = x)
   /\ (opt_timestamp e = None -> ev_timestamp r = 0))
  /\ pushQuit_counted e (s, calls)
     = (fst (EventUnion.push written),
        (snd (EventUnion.push written), Datatypes.S calls)).
Proof.
  intros Hdt r written. split.
  - apply quit_record_fields.
  - unfold EventUnion.pushQuit. apply pushVariant_on_view, Hdt.
Qed.

(** When [dt] throws, [pushQuit] throws the same, writes nothing and does
    not call [push]. *)
Lemma pushQuit_dt_throws (e : PartialCommon) (s : S) (calls : nat) (x : exn) :
  EventUnion.dt s = Throw x ->
  pushQuit_counted e (s, calls) = (Throw x, (s, calls)).
Proof.
  intros Hdt. unfold EventUnion.pushQuit, EventUnion.pushVariant. simpl.
  rewrite Hdt. reflexivity.
Qed.
End PushQuit.

(** ** An integer against a number *)

(** An integer is at or above a rational exactly when it is at or above the
    next integer up. *)
Lemma geb_ceiling (n : Z) (q : Q) :
  (n >=? Number.Finite q)%number = (Qceiling q <=? n).
Proof.
  unfold Number.geb, Number.of_Z, Number.leb.
  destruct (Qle_bool q (inject_Z n)) eqn:Hq; symmetry.
  - apply Z.leb_le. apply Qle_bool_iff in Hq.
    rewrite <- (Qceiling_Z n). apply Qceiling_resp_le, Hq.
  - apply Z.leb_gt. apply Z.lt_nge. intros Hle.
    assert (Hc : Qle_bool q (inject_Z n) = true); [|congruence].
    apply Qle_bool_iff. apply Qle_trans with (inject_Z (Qceiling q)).
    + apply Qle_ceiling.
    + rewrite <- Zle_Qle. exact Hle.
Qed.

Lemma geb_of_Z (n m : Z) : (n >=? m)%number = (m <=? n).
Proof.
  change (Number.of_Z m) with (Number.Finite (inject_Z m)).
  rewrite geb_ceiling, Qceiling_Z. reflexivity.
Qed.

Lemma leb_of_Z (n m : Z) : (n <=? m)%number = (n <=? m).
Proof. exact (geb_of_Z m n). Qed.

Lemma ltb_of_Z (n m : Z) : (n <? m)%number = (n <? m).
Proof.
  change ((n <? m)%number) with (negb (n >=? m)%number).
  rewrite geb_of_Z. symmetry. apply Z.ltb_antisym.
Qed.

(** Below an integer that is within a number, an integer is not at or
    above that number. *)
Lemma below_within (i n : Z) (c : Number.t) :
  i < n -> (n <= c)%number -> (i >=? c)%number = false /\ (i < c)%number.
Proof.
  intros Hi Hn. unfold Number.le in Hn.
  destruct c as [q| | |]; try discriminate Hn; [|split; reflexivity].
  assert (H : (i >=? Number.Finite q)%number = false);
    [|split; [exact H|];
      change (negb (i >=? Number.Finite q)%number = true);
      rewrite H; reflexivity].
  rewrite geb_ceiling. apply Z.leb_gt.
  change ((n <=? Number.Finite q)%number)
    with ((Number.Finite q >=? n)%number) in Hn.
  unfold Number.geb, Number.leb, Number.of_Z in Hn.
  apply Qle_bool_iff in Hn.
  apply Z.lt_le_trans with n; [exact Hi|].
  rewrite <- (Qceiling_Z n). apply Qceiling_resp_le, Hn.
Qed.

(** The length [new Uint8Array] takes from an integer product. *)
Lemma ToIndex_of_Z (m k : Z) :
  Number.ToIndex (Number.mul (Number.of_Z m) k)
  = if (m * k <? 0) || (2 ^ 53 - 1 <? m * k)
    then Throw (RangeError "invalid typed array length")
    else Return (m * k).
Proof.
  unfold Number.ToIndex, Number.mul, Number.of_Z, Number.truncate.
  cbn [Qnum Qden Qmult inject_Z Pos.mul].
  rewrite Z.quot_1_r. reflexivity.
Qed.

(** ** The batch *)

Section Batch.
Import EventArray.

Lemma dt_full (a : t) :
  (numEvents a >= maxEvents a)%number ->
  dt a = Throw (Error "PeepEvents buffer full").
Proof.
  intros H. unfold dt. unfold Number.ge in H. rewrite H. reflexivity.
Qed.

Lemma push_full (a : t) :
  (numEvents a >= maxEvents a)%number ->
  push a = (Throw (Error "PeepEvents buffer full"), a).
Proof.
  intros H. unfold push. unfold Number.ge in H. rewrite H. reflexivity.
Qed.

Lemma pushVariant_full {T : Type} (write : T -> list byte -> list byte)
    (r : T) (a : t) :
  (numEvents a >= maxEvents a)%number ->
  EventUnion.pushVariant (I := impl) write r a
  = (Throw (Error "PeepEvents buffer full"), a).
Proof.
  intros H. unfold EventUnion.pushVariant. simpl.
  rewrite (dt_full a H). reflexivity.
Qed.

(** C4. On an [EventArray] whose cursor [numEvents] equals its capacity
    [maxEvents], [push()] throws and so does every variant push ([pushVia]
    for any codec, [pushQuit] and [pushCommon] among them, and any other
    [pushX] through [pushVariant]); in each case the array afterwards is
    the array before: cursor still at capacity, every stored byte as it
    was. *)
Theorem push_at_capacity_throws (a : t) :
  Number.of_Z (numEvents a) = maxEvents a ->
  push a = (Throw (Error "PeepEvents buffer full"), a)
  /\ (forall write, pushVia write a
                    = (Throw (Error "PeepEvents buffer full"), a))
  /\ (forall EventType write_QuitEvent e,
         EventUnion.pushQuit (I := impl) EventType write_QuitEvent e a
         = (Throw (Error "PeepEvents buffer full"), a))
  /\ (forall write_CommonEvent e,
         EventUnion.pushCommon (I := impl) write_CommonEvent e a
         = (Throw (Error "PeepEvents buffer full"), a))
  /\ (forall (T : Type) (write : T -> list byte -> list byte) (r : T),
         EventUnion.pushVariant (I := impl) write r a
         = (Throw (Error "PeepEvents buffer full"), a)).
Proof.
  intros Hfull. assert (H : (numEvents a >= maxEvents a)%number).
  { unfold Number.ge. rewrite <- Hfull, geb_of_Z. apply Z.leb_refl. }
  repeat split; intros.
  - apply push_full, H.
  - apply pushVariant_full, H.
  - apply pushVariant_full, H.
  - apply pushVariant_full, H.
  - apply pushVariant_full, H.
Qed.

Lemma get_in_range (index : Z) (f : callback) (a : t) :
  index < numEvents a ->
  get index f a
  = (fst (f (set_numEvents index a)),
     set_numEvents (numEvents a) (snd (f (set_numEvents index a)))).
Proof.
  intros H. unfold get.
  destruct (index >=? numEvents a) eqn:Hc.
  - apply Z.geb_le in Hc. lia.
  - destruct (f (set_numEvents index a)). reflexivity.
Qed.

Lemma fold_numEvents (f : fold_callback) (a : t) :
  numEvents (snd (fold f a)) = numEvents a.
Proof.
  unfold fold.
  destruct (fold_loop f (Z.to_nat (numEvents a)) 0 a). reflexivity.
Qed.

(** C5. [get(i, fn)] with [i < numEvents] runs [fn] on the array with the
    cursor at [i], completes as [fn] completes (returning or throwing),
    and in both cases leaves [numEvents] at its value from before the
    call; [fold(fn)] leaves [numEvents] at its value from before the call
    as well, however the iteration ends. *)
Theorem get_and_fold_restore_cursor
    (a : t) (i : Z) (fn : callback) (fn' : fold_callback) :
  i < numEvents a ->
  fst (get i fn a) = fst (fn (set_numEvents i a))
  /\ numEvents (snd (get i fn a)) = numEvents a
  /\ numEvents (snd (fold fn' a)) = numEvents a.
Proof.
  intros Hi. rewrite (get_in_range i fn a Hi). simpl.
  repeat split. apply fold_numEvents.
Qed.

(** C10. [get(i, fn)] with [i >= numEvents] throws the out-of-range error
    and leaves the array as it was, [numEvents] included; the outcome is
    the same for every [fn], which is never run. *)
Theorem get_out_of_range_throws (a : t) (i : Z) (fn : callback) :
  i >= numEvents a ->
  get i fn a = (Throw (Error "PeepEvents index out of range"), a).
Proof.
  intros Hi. unfold get.
  destruct (i >=? numEvents a) eqn:Hc; [reflexivity|].
  rewrite Z.geb_leb in Hc. apply Z.leb_gt in Hc. lia.
Qed.
End Batch.

(** ** The cursor invariant *)

Section Invariant.
Import EventArray.

(** What the constructor leaves, whatever number it was given. *)
Lemma new_fresh (allocates : Z -> bool) (c : Number.t) (a : t) :
  new allocates c = Return a -> numEvents a = 0 /\ maxEvents a = c.
Proof.
  unfold new. destruct (Number.ToIndex _) as [n|x]; [|discriminate].
  destruct (allocates n); [|discriminate].
  intros [= <-]. split; reflexivity.
Qed.

(** With an integer capacity the buffer has room for that many records. *)
Lemma new_whole (allocates : Z -> bool) (m : Z) (a : t) :
  new allocates (Number.of_Z m) = Return a ->
  numEvents a = 0 /\ maxEvents a = Number.of_Z m /\ 0 <= m
  /\ List.length (buf a) = Z.to_nat (m * SizeOfSdlEvent).
Proof.
  unfold new. rewrite ToIndex_of_Z.
  destruct ((m * SizeOfSdlEvent <? 0) || (2 ^ 53 - 1 <? m * SizeOfSdlEvent))
    eqn:Hc; [discriminate|].
  destruct (allocates (m * SizeOfSdlEvent)); [|discriminate].
  intros [= <-]. simpl.
  apply orb_false_iff in Hc as [Hneg _]. apply Z.ltb_ge in Hneg.
  unfold SizeOfSdlEvent in *. rewrite repeat_length.
  split; [reflexivity|]. split; [reflexivity|]. split; lia.
Qed.

Lemma push_keeps_capacity : keeps_capacity (fun a => snd (push a)).
Proof.
  intros a. unfold push.
  destruct (numEvents a >=? maxEvents a)%number; split; reflexivity.
Qed.

Lemma pushVia_keeps_capacity (write : list byte -> list byte) :
  keeps_capacity (fun a => snd (pushVia write a)).
Proof.
  intros a. unfold pushVia, EventUnion.pushVariant. simpl.
  destruct (dt a) as [v|x] eqn:Hdt; simpl; [|split; reflexivity].
  match goal with |- context [push ?b] =>
    destruct (push_keeps_capacity b) as [Hmax Hlen] end.
  simpl in Hmax, Hlen. rewrite Hmax, Hlen. simpl. split; [reflexivity|].
  unfold dt in Hdt.
  destruct (numEvents a >=? maxEvents a)%number; [discriminate|].
  apply new_DataView_inside in Hdt.
  apply length_view_store; unfold SizeOfSdlEvent in *; lia.
Qed.

Lemma get_keeps_capacity (index : Z) (f : callback) :
  keeps_capacity (fun a => snd (f a)) ->
  keeps_capacity (fun a => snd (get index f a)).
Proof.
  intros Hf a. unfold get.
  destruct (index >=? numEvents a); simpl; [split; reflexivity|].
  destruct (Hf (set_numEvents index a)) as [Hmax Hlen].
  destruct (f (set_numEvents index a)) as [c a']. simpl in *. auto.
Qed.

Lemma fold_loop_keeps_capacity (f : fold_callback) (todo : nat) (i : Z) :
  (forall j, keeps_capacity (fun a => snd (f a j))) ->
  keeps_capacity (fun a => snd (fold_loop f todo i a)).
Proof.
  intros Hf. revert i.
  induction todo as [|todo IH]; intros i a; simpl; auto.
  destruct (Hf i (set_numEvents i a)) as [Hmax Hlen].
  destruct (f (set_numEvents i a) i) as [c a']. simpl in *.
  destruct c as [[|]|x]; simpl; auto.
  destruct (IH (i + 1) a') as [IHmax IHlen]. split; congruence.
Qed.

Lemma fold_keeps_capacity (f : fold_callback) :
  (forall j, keeps_capacity (fun a => snd (f a j))) ->
  keeps_capacity (fun a => snd (fold f a)).
Proof.
  intros Hf a. unfold fold.
  destruct (fold_loop_keeps_capacity f (Z.to_nat (numEvents a)) 0 Hf a)
    as [Hmax Hlen].
  destruct (fold_loop f (Z.to_nat (numEvents a)) 0 a) as [c a'].
  simpl in *. auto.
Qed.

(** No operation changes the capacity or resizes the buffer. *)
Lemma after_keeps_capacity (o : operation) :
  well_behaved o -> keeps_capacity (after o).
Proof.
  destruct o; simpl; intros Ho.
  - apply push_keeps_capacity.
  - intros a. split; reflexivity.
  - apply pushVia_keeps_capacity.
  - apply get_keeps_capacity, Ho.
  - apply fold_keeps_capacity, Ho.
Qed.

(** With a finite capacity [q], [push] stops the cursor at the next
    integer up from [q]: at [q] itself when [q] is an integer. *)
Lemma push_cursor (q : Q) (a : t) :
  maxEvents a = Number.Finite q ->
  0 <= numEvents a <= Qceiling q ->
  0 <= numEvents (snd (push a)) <= Qceiling q.
Proof.
  intros Hq Hc. unfold push. rewrite Hq, geb_ceiling.
  destruct (Qceiling q <=? numEvents a) eqn:Hfull; simpl; [exact Hc|].
  apply Z.leb_gt in Hfull. lia.
Qed.

(** Every operation leaves the cursor within these bounds. *)
Lemma after_cursor (q : Q) (o : operation) (a : t) :
  well_behaved o -> maxEvents a = Number.Finite q ->
  0 <= numEvents a <= Qceiling q ->
  0 <= numEvents (after o a) <= Qceiling q.
Proof.
  intros Ho Hq Hc.
  destruct o; simpl.
  - apply push_cursor; assumption.
  - exact Hc.
  - unfold pushVia, EventUnion.pushVariant. simpl.
    destruct (dt a) as [v|x]; simpl; [|exact Hc].
    match goal with |- context [push ?b] =>
      exact (push_cursor q b Hq Hc) end.
  - unfold get. destruct (index >=? numEvents a); simpl; [exact Hc|].
    destruct (f (set_numEvents index a)). exact Hc.
  - rewrite fold_numEvents. exact Hc.
Qed.

Lemma history_stable (q : Q) (ops : list operation) (a : t) :
  Forall well_behaved ops -> maxEvents a = Number.Finite q ->
  0 <= numEvents a <= Qceiling q ->
  Forall (fun a' => 0 <= numEvents a' <= Qceiling q
                    /\ maxEvents a' = maxEvents a
                    /\ List.length (buf a') = List.length (buf a))
         (history ops a).
Proof.
  intros Hops. revert a.
  induction Hops as [|o ops Ho _ IH]; intros a Hq Ha; simpl; constructor.
  - destruct (after_keeps_capacity o Ho a). auto using after_cursor.
  - destruct (after_keeps_capacity o Ho a) as [Hmax Hlen].
    rewrite <- Hmax, <- Hlen.
    apply IH; [congruence|apply after_cursor; assumption].
Qed.

(** With an integer capacity, that is the invariant
    [0 <= numEvents <= maxEvents]. *)
Lemma within_whole (m : Z) (a : t) :
  maxEvents a = Number.of_Z m ->
  0 <= numEvents a <= Qceiling (inject_Z m) ->
  0 <= numEvents a <= m /\ cursor_in_range a.
Proof.
  intros Hm Ha. rewrite Qceiling_Z in Ha. split; [exact Ha|].
  split; [lia|]. unfold Number.le. rewrite Hm, leb_of_Z.
  apply Z.leb_le. lia.
Qed.

(** A callback made of well-behaved operations is well behaved. *)
Lemma run_all_keeps_capacity (ops : list operation) :
  Forall well_behaved ops -> keeps_capacity (run_all ops).
Proof.
  unfold run_all. induction 1 as [|o ops Ho _ IH]; intros a; simpl.
  - split; reflexivity.
  - destruct (IH (after o a)) as [Hmax Hlen].
    destruct (after_keeps_capacity o Ho a) as [Hmax' Hlen'].
    split; congruence.
Qed.

Lemma scripted_well_behaved (index : Z) (ops : list operation)
    (c : completion unit) :
  Forall well_behaved ops -> well_behaved (Get index (scripted ops c)).
Proof. intros Hops. simpl. apply run_all_keeps_capacity, Hops. Qed.

(** Inside the callback of [get] the cursor is the index, strictly below
    the capacity. *)
Lemma get_callback_below_capacity (index : Z) (a : t) :
  cursor_in_range a -> index < numEvents a ->
  numEvents (set_numEvents index a) = index
  /\ (numEvents (set_numEvents index a)
      < maxEvents (set_numEvents index a))%number.
Proof.
  intros [_ Hc] Hi. split; [reflexivity|].
  exact (proj2 (below_within index (numEvents a) (maxEvents a) Hi Hc)).
Qed.

(** C6. Start from [new EventArray(m)] with an integer [m] and run any
    sequence of [push], variant pushes, reads of [dt], [get] and [fold],
    callbacks included (a callback may do what it likes to the cursor, and
    keeps the capacity and the size of the buffer as the operations of the
    array do). After construction and after each operation, whether it
    returned or threw, [0 <= numEvents <= maxEvents], the capacity is
    still [m] and the buffer still has the [m * 128] bytes it was
    allocated with. *)
Theorem cursor_stays_within_capacity
    (allocates : Z -> bool) (m : Z) (a0 : t) (ops : list operation) :
  new allocates (Number.of_Z m) = Return a0 ->
  Forall well_behaved ops ->
  Forall (fun a => 0 <= numEvents a
                   /\ (numEvents a <= maxEvents a)%number
                   /\ maxEvents a = Number.of_Z m
                   /\ List.length (buf a) = List.length (buf a0)
                   /\ List.length (buf a) = Z.to_nat (m * SizeOfSdlEvent))
         (a0 :: history ops a0).
Proof.
  intros Hnew Hops.
  destruct (new_whole allocates m a0 Hnew) as (Hn & Hm & Hpos & Hlen).
  assert (Hc : 0 <= numEvents a0 <= Qceiling (inject_Z m))
    by (rewrite Qceiling_Z; lia).
  constructor.
  - destruct (within_whole m a0 Hm Hc) as [_ [H0 Hle]]. auto.
  - eapply Forall_impl;
      [|exact (history_stable (inject_Z m) ops a0 Hops Hm Hc)].
    intros a (Ha & Hmax & Hbuf). rewrite Hm in Hmax.
    destruct (within_whole m a Hmax Ha) as [_ [H0 Hle]].
    cbv beta. rewrite Hbuf. auto.
Qed.
End Invariant.

(** C6 as it is worded, for every [EventArray], fails on a capacity that is
    not an integer. [new EventArray(1.5)] returns an array with a buffer
    of 192 bytes; two calls of [push()] on it return, since neither 0 nor
    1 is at or above 1.5; the cursor is then 2, above the capacity. *)
Lemma cursor_passes_fractional_capacity :
  EventArray.new Sample.allocates (Number.Finite (3 # 2))
  = Return Sample.fractional_batch
  /\ fst (EventArray.push Sample.fractional_batch) = Return tt
  /\ fst (EventArray.push (snd (EventArray.push Sample.fractional_batch)))
     = Return tt
  /\ ~ Forall (fun a => 0 <= EventArray.numEvents a
                        /\ (EventArray.numEvents a
                            <= EventArray.maxEvents a)%number)
               (Sample.fractional_batch
                :: EventArray.history [EventArray.Push; EventArray.Push]
                                      Sample.fractional_batch).
Proof.
  split; [reflexivity|]. split; [reflexivity|]. split; [reflexivity|].
  intros H.
  apply Forall_inv_tail, Forall_inv_tail, Forall_inv in H.
  destruct H as [_ Hle]. cbv in Hle. discriminate Hle.
Qed.

(** ** The receivers of the inherited methods *)

(** An [Event] always hands out its view, so [pushQuit] on it always
    writes and pushes. *)
Lemma dt_Event_returns (World : Type)
    (pushEvent : list byte -> World -> bool * list byte * World)
    (s : Event.t * World) :
  EventUnion.dt (Impl := Event.impl World pushEvent) s
  = Return {| byteOffset := 0; byteLength := SizeOfSdlEvent |}.
Proof. reflexivity. Qed.

(** On an [Event], then, [pushQuit(e)] never throws: it writes the quit
    record over the event's record and hands it to the native push, once. *)
Lemma pushQuit_on_Event (EventType : EventTypeName -> Z)
    (write_QuitEvent : QuitEvent -> list byte -> list byte)
    (World : Type)
    (pushEvent : list byte -> World -> bool * list byte * World)
    (e : PartialCommon) (ev : Event.t) (w : World) (calls : nat) :
  EventUnion.pushQuit
    (I := EventUnion.counting (Event.impl World pushEvent))
    EventType write_QuitEvent e ((ev, w), calls)
  = (Return tt,
     (snd (EventUnion.push
             (Impl := Event.impl World pushEvent)
             (Event.set_record
                (view_store
                   (Event.record ev)
                   {| byteOffset := 0; byteLength := SizeOfSdlEvent |}
                   (write_QuitEvent
                      (EventUnion.quit_record EventType e)
                      (view_bytes
                         (Event.record ev)
                         {| byteOffset := 0; byteLength := SizeOfSdlEvent |})))
                ev, w)),
      Datatypes.S calls)).
Proof.
  unfold EventUnion.pushQuit.
  rewrite (pushVariant_on_view
             (Event.impl World pushEvent) write_QuitEvent
             (EventUnion.quit_record EventType e) (ev, w) calls
             {| byteOffset := 0; byteLength := SizeOfSdlEvent |} eq_refl).
  cbn [EventUnion.push EventUnion.set_bytes EventUnion.bytes
       Event.impl fst snd].
  match goal with |- context [Event.push ?W ?p ?x ?y] =>
    destruct (Event.push W p x y) as [[ok e'] w'] end.
  reflexivity.
Qed.

(** An [EventArray] has no [type]: its [toObject()] is its [common] getter,
    which throws at capacity as [dt] does. *)
Lemma toObject_EventArray (EventType : EventTypeName -> Z) (Obj : Type)
    (read : Projection -> list byte -> Obj) (a : EventArray.t) :
  EventUnion.toObject (I := EventArray.impl) EventType Obj read a
  = EventUnion.project (I := EventArray.impl) Obj read common a
  /\ ((EventArray.numEvents a >= EventArray.maxEvents a)%number ->
      EventUnion.toObject (I := EventArray.impl) EventType Obj read a
      = Throw (Error "PeepEvents buffer full")).
Proof.
  split; [reflexivity|].
  intros H. unfold EventUnion.toObject, EventUnion.project. simpl.
  rewrite (dt_full a H). reflexivity.
Qed.

(** ** Examples *)

(** The dispatch under the SDL 3 numbering: listed tags, the user range,
    a tag of the enumeration the [switch] does not list (0x304), and tags
    outside every range. *)
Example dispatch_samples :
  map (fun t => EventUnion.dispatch Sample.EventType (Num t))
      [0x100; 0x300; 0x402; 0x8000; 0x8001; 0xFFFF; 0x304; 0; 0x10000]
  = [quit; keyboard; mouseButton; user; user; user; common; common; common].
Proof. reflexivity. Qed.

(** Two pushes fill a batch of capacity 2; the third throws and changes
    nothing. *)
Example push_until_full :
  let a1 := snd (EventArray.push Sample.fresh_batch) in
  let a2 := snd (EventArray.push a1) in
  EventArray.numEvents a2 = 2
  /\ EventArray.push a2 = (Throw (Error "PeepEvents buffer full"), a2).
Proof. split; reflexivity. Qed.

(** Capacities that are not counts. [new EventArray(1.5)] has a buffer of
    one record and a half: after one push the cursor is on the half, where
    [dt] is the [RangeError] of [DataView]. [new EventArray(NaN)] has an
    empty buffer. A negative length, an infinite one and one the engine
    cannot allocate make the constructor throw. *)
Example odd_capacities :
  EventArray.dt (snd (EventArray.push Sample.fractional_batch))
  = Throw (RangeError "invalid DataView length")
  /\ EventArray.new Sample.allocates Number.NaN
     = Return {| EventArray.buf := [];
                 EventArray.numEvents := 0;
                 EventArray.maxEvents := Number.NaN |}
  /\ EventArray.new Sample.allocates (Number.of_Z (-1))
     = Throw (RangeError "invalid typed array length")
  /\ EventArray.new Sample.allocates Number.PlusInfinity
     = Throw (RangeError "invalid typed array length")
  /\ EventArray.new Sample.allocates (Number.of_Z (2 ^ 40))
     = Throw (RangeError "Array buffer allocation failed").
Proof. repeat split; reflexivity. Qed.

(** [pushQuit({})] on a fresh batch stores a quit record in slot 0 and moves
    the cursor to 1; [get(0, ...)] then reads the tag back. *)
Example pushQuit_then_get :
  let a1 := snd (EventUnion.pushQuit (I := EventArray.impl)
                   Sample.EventType Sample.write
                   (mkPartialCommon None None None) Sample.fresh_batch) in
  EventArray.numEvents a1 = 1
  /\ getUint32 true (EventArray.buf a1) 0 = 0x100
  /\ fst (EventArray.get 0 (fun a => (Return tt, a)) a1) = Return tt
  /\ EventUnion.project (I := EventArray.impl) _ Sample.read quit
       (EventArray.set_numEvents 0 a1)
     = Return (quit, Sample.record_with_tag 0x100).
Proof. repeat split; reflexivity. Qed.

Lemma toObject_user_range_witness :
  (Sample.EventType USER <= 0x8001 <= Sample.EventType LAST)
  /\ (forall name, In name (map fst switch_cases) ->
                   Sample.EventType name <> 0x8001)
  /\ EventUnion.toObject
       (I := Event.impl NativeQueue.queue NativeQueue.pushEvent)
       Sample.EventType _ Sample.read
       ({| Event.record := Sample.record_with_tag 0x8001;
           Event.type := 0x8001 |}, [])
     = Return (user, Sample.record_with_tag 0x8001).
Proof.
  assert (Hrange : Sample.EventType USER <= 0x8001 <= Sample.EventType LAST)
    by (simpl; lia).
  assert (Hfresh : forall name, In name (map fst switch_cases) ->
                                Sample.EventType name <> 0x8001).
  { intros name H. simpl in H.
    repeat (destruct H as [<-|H]; [simpl; intro E; discriminate E|]).
    destruct H. }
  split; [exact Hrange|]. split; [exact Hfresh|].
  exact (proj1 (toObject_user_range
                  Sample.EventType _ Sample.read
                  NativeQueue.queue NativeQueue.pushEvent
                  {| Event.record := Sample.record_with_tag 0x8001;
                     Event.type := 0x8001 |} [] Hrange Hfresh)).
Defined.

Lemma iter_stops_after_quit_witness :
  Forall (fun a => a = Event.Returned)
         [@Event.Returned Z; @Event.Returned Z].
Proof.
  apply (iter_stops_after_quit
           Sample.EventType true NativeQueue.queue NativeQueue.pollEvent
           Z (fun _ => 0) Z.add Z.sub (fun x => 0 <? x) 0 16 None
           [pair; pair; pair; pair] Event.NotStarted Event.new
           [Sample.record_with_tag 0x300; Sample.record_with_tag 0x100;
            Sample.record_with_tag 0x300]
           [Event.Polled true;
            Event.Yielded {| Event.record := Sample.record_with_tag 0x300;
                             Event.type := 0x300 |};
            Event.Polled true]
           [Event.Returned; Event.Returned]
           {| Event.record := Sample.record_with_tag 0x100;
              Event.type := 0x100 |}).
  - reflexivity.
  - reflexivity.
Defined.

Lemma push_at_capacity_throws_witness :
  Number.of_Z (EventArray.numEvents Sample.full_batch)
  = EventArray.maxEvents Sample.full_batch
  /\ EventArray.push Sample.full_batch
     = (Throw (Error "PeepEvents buffer full"), Sample.full_batch)
  /\ EventArray.pushVia (Sample.write (mkCommonEvent 0x100 0 0))
                        Sample.full_batch
     = (Throw (Error "PeepEvents buffer full"), Sample.full_batch).
Proof.
  assert (Hfull : Number.of_Z (EventArray.numEvents Sample.full_batch)
                  = EventArray.maxEvents Sample.full_batch) by reflexivity.
  destruct (push_at_capacity_throws Sample.full_batch Hfull)
    as (Hpush & Hvia & _).
  split; [exact Hfull|]. split; [exact Hpush|apply Hvia].
Defined.

Lemma get_and_fold_restore_cursor_witness :
  0 < EventArray.numEvents Sample.batch
  /\ fst (EventArray.get 0 Sample.push_then_throw Sample.batch)
     = Throw (Error "stop")
  /\ EventArray.numEvents
       (snd (EventArray.get 0 Sample.push_then_throw Sample.batch)) = 1
  /\ EventArray.numEvents
       (snd (EventArray.fold Sample.push_and_continue Sample.batch)) = 1.
Proof.
  assert (Hi : 0 < EventArray.numEvents Sample.batch) by (simpl; lia).
  split; [exact Hi|].
  exact (get_and_fold_restore_cursor
           Sample.batch 0 Sample.push_then_throw Sample.push_and_continue Hi).
Defined.

Lemma get_out_of_range_throws_witness :
  1 >= EventArray.numEvents Sample.batch
  /\ EventArray.get 1 Sample.push_then_throw Sample.batch
     = (Throw (Error "PeepEvents index out of range"), Sample.batch).
Proof.
  assert (Hi : 1 >= EventArray.numEvents Sample.batch) by (simpl; lia).
  split; [exact Hi|].
  exact (get_out_of_range_throws Sample.batch 1 Sample.push_then_throw Hi).
Defined.

Lemma cursor_stays_within_capacity_witness :
  EventArray.new Sample.allocates (Number.of_Z 2) = Return Sample.fresh_batch
  /\ Forall (fun a => 0 <= EventArray.numEvents a
                      /\ (EventArray.numEvents a
                          <= EventArray.maxEvents a)%number
                      /\ EventArray.maxEvents a = Number.of_Z 2
                      /\ List.length (EventArray.buf a)
                         = List.length (EventArray.buf Sample.fresh_batch)
                      /\ List.length (EventArray.buf a)
                         = Z.to_nat (2 * SizeOfSdlEvent))
            (Sample.fresh_batch
             :: EventArray.history Sample.session Sample.fresh_batch).
Proof.
  assert (Hnew : EventArray.new Sample.allocates (Number.of_Z 2)
                 = Return Sample.fresh_batch) by reflexivity.
  assert (Hops : Forall EventArray.well_behaved Sample.session).
  { unfold Sample.session.
    repeat (apply Forall_cons; [|]); try exact I; try apply Forall_nil.
    - exact push_keeps_capacity.
    - intros i. exact push_keeps_capacity.
    - apply scripted_well_behaved.
      repeat (apply Forall_cons; [|]); try exact I; try apply Forall_nil.
      exact push_keeps_capacity.
    - exact push_keeps_capacity. }
  split; [exact Hnew|].
  exact (cursor_stays_within_capacity Sample.allocates 2 Sample.fresh_batch
                                      Sample.session Hnew Hops).
Defined.

Lemma pushQuit_writes_then_pushes_once_witness :
  EventUnion.pushQuit
    (I := EventUnion.counting
            (Event.impl NativeQueue.queue NativeQueue.pushEvent))
    Sample.EventType Sample.write
    (mkPartialCommon None None (Some 7)) ((Event.new, []), 0%nat)
  = (Return tt,
     (({| Event.record :=
            Sample.write (mkCommonEvent 0x100 0 7) (Event.record Event.new);
          Event.type := 0 |},
       [Sample.write (mkCommonEvent 0x100 0 7) (Event.record Event.new)]),
      1%nat)).
Proof.
  exact (proj2 (pushQuit_writes_then_pushes_once
                  Sample.EventType Sample.write
                  (Event.impl NativeQueue.queue NativeQueue.pushEvent)
                  (mkPartialCommon None None (Some 7)) (Event.new, []) 0%nat
                  {| byteOffset := 0; byteLength := SizeOfSdlEvent |}
                  eq_refl)).
Defined.

Lemma false_keeps_type_witness :
  Event.take true NativeQueue.queue NativeQueue.pollEvent
             NativeQueue.failing (fun _ => NativeQueue.failing)
             Event.Poll
             {| Event.record := Sample.record_with_tag 0x300;
                Event.type := 0x300 |} []
  = (false,
     {| Event.record := Sample.record_with_tag 0x300; Event.type := 0x300 |},
     [])
  /\ Event.type {| Event.record := Sample.record_with_tag 0x300;
                   Event.type := 0x300 |} = 0x300.
Proof.
  split; [reflexivity|].
  exact (false_keeps_type
           true NativeQueue.queue NativeQueue.pollEvent
           NativeQueue.failing (fun _ => NativeQueue.failing)
           Event.Poll
           {| Event.record := Sample.record_with_tag 0x300;
              Event.type := 0x300 |}
           {| Event.record := Sample.record_with_tag 0x300;
              Event.type := 0x300 |} [] [] eq_refl).
Defined.

(** * More properties *)

(** ** Labels, getters and implied tags *)

Lemma increasing_above (x : Z) (l : list Z) :
  increasing (x :: l) = true -> forall y, In y l -> x < y.
Proof.
  revert x. induction l as [|z l IH]; intros x H y Hy; [destruct Hy|].
  simpl in H. apply andb_true_iff in H as [Hxz Hl]. apply Z.ltb_lt in Hxz.
  destruct Hy as [<-|Hy]; [exact Hxz|].
  specialize (IH z Hl y Hy). lia.
Qed.

Lemma increasing_NoDup (l : list Z) : increasing l = true -> NoDup l.
Proof.
  induction l as [|x l IH]; intros H; constructor.
  - intros Hin. pose proof (increasing_above x l H x Hin). lia.
  - apply IH. destruct l as [|y l]; [reflexivity|].
    simpl in H. apply andb_true_iff in H as [_ H]. exact H.
Qed.

Lemma find_unique_key {A} (key : A -> Z) (l : list A) (c : A) :
  NoDup (map key l) -> In c l -> find (fun x => key x =? key c) l = Some c.
Proof.
  induction l as [|x l IH]; simpl; intros Hnd Hin; [destruct Hin|].
  inversion Hnd as [|? ? Hx Hl]; subst.
  destruct Hin as [->|Hin].
  - rewrite Z.eqb_refl. reflexivity.
  - destruct (key x =? key c) eqn:Hk; [|auto].
    apply Z.eqb_eq in Hk. exfalso. apply Hx. rewrite Hk.
    apply in_map, Hin.
Qed.

Section Labels.
Variable EventType : EventTypeName -> Z.

Local Abbreviation dispatch t := (EventUnion.dispatch EventType (Num t)).

Lemma dispatch_label (name : EventTypeName) (p : Projection) :
  NoDup (label_values EventType) ->
  In (name, p) switch_cases ->
  dispatch (EventType name) = p.
Proof.
  intros Hnd Hin. unfold EventUnion.dispatch.
  pose proof (find_unique_key (fun c => EventType (fst c)) switch_cases
                              (name, p) Hnd Hin) as Hfind.
  cbn [fst] in Hfind. rewrite Hfind. reflexivity.
Qed.

(** X1. When no two [case] labels of [toObject] have the same value, every
    label selects the getter written after it: no label is shadowed by an
    earlier one. *)
Theorem label_dispatches_to_its_getter (name : EventTypeName) (p : Projection) :
  NoDup (label_values EventType) ->
  In (name, p) switch_cases ->
  dispatch (EventType name) = p.
Proof. apply dispatch_label. Qed.

Lemma implied_type_label (p : Projection) (n : EventTypeName) :
  implied_type p = Some n -> labels_of p = [n] /\ In (n, p) switch_cases.
Proof.
  destruct p; simpl; intros [= <-]; (split; [reflexivity|]);
    unfold switch_cases; simpl; tauto.
Qed.

(** X2. A [pushX] that fills in the tag itself fills in the one tag that
    [toObject] maps to the getter X: X has that label and no other, and
    (labels having distinct values) an object whose [type] is that tag is
    read back by [toObject] through X. *)
Theorem implied_tag_reads_back (p : Projection) (n : EventTypeName) :
  NoDup (label_values EventType) ->
  implied_type p = Some n ->
  labels_of p = [n] /\ dispatch (EventType n) = p.
Proof.
  intros Hnd Hp. destruct (implied_type_label p n Hp) as [Hl Hin].
  split; [exact Hl|]. apply dispatch_label; assumption.
Qed.
End Labels.

(** X3. The other way round: a [pushX] leaves the tag to the caller exactly
    when the getter X stands for several event types or for none in the
    [switch], or is [user] (whose tags are a range). *)
Theorem caller_gives_tag_when_ambiguous (p : Projection) :
  implied_type p = None <->
  (p = user \/ List.length (labels_of p) <> 1%nat).
Proof.
  split.
  - destruct p; simpl; intros H; try discriminate H;
      try (left; reflexivity); right; unfold labels_of; simpl; lia.
  - intros [-> | H]; [reflexivity|].
    destruct p; try reflexivity; exfalso; apply H; reflexivity.
Qed.

(** ** The cached tag of an [Event] *)

Section CachedTag.
Variable EventType : EventTypeName -> Z.
Variable Obj : Type.
Variable read : Projection -> list byte -> Obj.
Variable littleEndian : bool.
Variable World : Type.
Variable pollEvent : list byte -> World -> bool * list byte * World.
Variable waitEvent : list byte -> World -> bool * list byte * World.
Variable waitEventTimeout :
  Z -> list byte -> World -> bool * list byte * World.
Variable pushEvent : list byte -> World -> bool * list byte * World.

Local Abbreviation take :=
  (Event.take littleEndian World pollEvent waitEvent waitEventTimeout).
Local Abbreviation toObject :=
  (EventUnion.toObject (I := Event.impl World pushEvent) EventType Obj read).

(** X4. When [poll()], [wait()] or [waitTimeout(ms)] returns true, the cached
    [type] is the unsigned 32-bit tag at the start of the record the native
    call left, and the next [toObject()] dispatches on that tag. *)
Theorem true_caches_the_record_tag
    (m : Event.taking) (e e' : Event.t) (w w' : World) :
  take m e w = (true, e', w') ->
  Event.type e' = getUint32 littleEndian (Event.record e') 0
  /\ 0 <= Event.type e' < 2 ^ 32
  /\ toObject (e', w')
     = Return (read (EventUnion.dispatch
                       EventType
                       (Num (getUint32 littleEndian (Event.record e') 0)))
                    (firstn (Z.to_nat SizeOfSdlEvent) (Event.record e'))).
Proof.
  intros H.
  assert (Ht : Event.type e' = getUint32 littleEndian (Event.record e') 0
               /\ 0 <= Event.type e' < 2 ^ 32).
  { destruct m; simpl in H; apply and_readType_true in H; exact H. }
  destruct Ht as [Ht Hr]. repeat split; try tauto.
  unfold EventUnion.toObject, EventUnion.project. cbn [EventUnion.type
    EventUnion.dt EventUnion.bytes Event.impl Event.dt fst].
  rewrite Ht. reflexivity.
Qed.

(** X5. No [pushX] and no [push()] on an [Event] touches the cached [type]:
    after [pushQuit] the record may carry another tag, and [toObject()]
    still goes by the tag of the last successful poll or wait. *)
Theorem pushes_keep_the_cached_tag {T : Type}
    (write : T -> list byte -> list byte) (r : T) (e : Event.t) (w : World) :
  Event.type
    (fst (snd (EventUnion.pushVariant (I := Event.impl World pushEvent)
                                      write r (e, w))))
  = Event.type e
  /\ Event.type (snd (fst (Event.push World pushEvent e w))) = Event.type e
  /\ EventUnion.dispatch
       EventType
       (EventUnion.type
          (Impl := Event.impl World pushEvent)
          (snd (EventUnion.pushVariant (I := Event.impl World pushEvent)
                                       write r (e, w))))
     = EventUnion.dispatch EventType (Num (Event.type e)).
Proof.
  assert (Hpush : forall e0 w0,
             Event.type (snd (fst (Event.push World pushEvent e0 w0)))
             = Event.type e0).
  { intros e0 w0. unfold Event.push.
    destruct (pushEvent (Event.record e0) w0) as [[ok r0] w1]. reflexivity. }
  assert (Hvar : Event.type
                   (fst (snd (EventUnion.pushVariant
                                (I := Event.impl World pushEvent)
                                write r (e, w))))
                 = Event.type e).
  { unfold EventUnion.pushVariant.
    cbn [EventUnion.dt EventUnion.push EventUnion.set_bytes EventUnion.bytes
         Event.impl Event.dt fst snd].
    match goal with |- context [Event.push World pushEvent ?e0 ?w0] =>
      pose proof (Hpush e0 w0) as H0;
      destruct (Event.push World pushEvent e0 w0) as [[ok e1] w1] end.
    simpl in *. exact H0. }
  split; [exact Hvar|]. split; [apply Hpush|].
  cbn [EventUnion.type Event.impl]. rewrite Hvar. reflexivity.
Qed.
End CachedTag.

(** ** Records of a batch *)

Lemma view_store_same (mem : list byte) (v : DataView) (new : list byte) :
  0 <= byteOffset v -> 0 <= byteLength v ->
  byteOffset v + byteLength v <= Z.of_nat (List.length mem) ->
  view_bytes (view_store mem v new) v = fit (Z.to_nat (byteLength v)) new.
Proof.
  intros Ho Hl Hin. unfold view_bytes, view_store.
  set (o := Z.to_nat (byteOffset v)). set (n := Z.to_nat (byteLength v)).
  assert (Hlen : List.length (firstn o mem) = o)
    by (rewrite length_firstn; lia).
  rewrite skipn_app, Hlen, Nat.sub_diag, skipn_all2 by lia. simpl.
  rewrite firstn_app, length_fit, Nat.sub_diag, firstn_all2
    by (rewrite length_fit; lia).
  simpl. apply app_nil_r.
Qed.

Lemma view_store_other (mem : list byte) (v v' : DataView) (new : list byte) :
  0 <= byteOffset v -> 0 <= byteLength v ->
  byteOffset v + byteLength v <= Z.of_nat (List.length mem) ->
  0 <= byteOffset v' -> 0 <= byteLength v' ->
  byteOffset v' + byteLength v' <= byteOffset v
  \/ byteOffset v + byteLength v <= byteOffset v' ->
  view_bytes (view_store mem v new) v' = view_bytes mem v'.
Proof.
  intros Ho Hl Hin Ho' Hl' Hdisjoint. unfold view_bytes, view_store.
  set (o := Z.to_nat (byteOffset v)). set (n := Z.to_nat (byteLength v)).
  set (o' := Z.to_nat (byteOffset v')). set (n' := Z.to_nat (byteLength v')).
  assert (Hlen : List.length (firstn o mem) = o)
    by (rewrite length_firstn; lia).
  destruct Hdisjoint as [Hbefore | Hafter].
  - assert (Hon : (o' + n' <= o)%nat) by lia.
    rewrite skipn_app, Hlen.
    replace (o' - o)%nat with 0%nat by lia. simpl.
    rewrite firstn_app, length_skipn, Hlen.
    replace (n' - (o - o'))%nat with 0%nat by lia. simpl.
    rewrite app_nil_r, skipn_firstn_comm, firstn_firstn.
    f_equal. lia.
  - assert (Hon : (o + n <= o')%nat) by lia.
    rewrite skipn_app, Hlen, skipn_all2 by lia. simpl.
    rewrite skipn_app, length_fit, skipn_all2 by (rewrite length_fit; lia).
    simpl. rewrite skipn_skipn. f_equal. f_equal. lia.
Qed.

Section Records.
Import EventArray.

(** A well-formed batch with the cursor below the capacity, in integers. *)
Lemma below_capacity (a : t) :
  well_formed a -> (numEvents a < maxEvents a)%number ->
  exists m : Z,
    maxEvents a = Number.of_Z m /\ 0 <= numEvents a < m
    /\ List.length (buf a) = Z.to_nat (m * SizeOfSdlEvent).
Proof.
  intros (m & Hm & Hc & Hlen) Hlt. exists m.
  unfold Number.lt in Hlt. rewrite Hm, ltb_of_Z in Hlt.
  apply Z.ltb_lt in Hlt. split; [exact Hm|]. split; [lia|exact Hlen].
Qed.

Lemma dt_below_capacity (a : t) :
  well_formed a -> (numEvents a < maxEvents a)%number ->
  dt a = Return {| byteOffset := numEvents a * SizeOfSdlEvent;
                   byteLength := SizeOfSdlEvent |}.
Proof.
  intros Hwf Hlt.
  destruct (below_capacity a Hwf Hlt) as (m & Hm & Hc & Hlen).
  unfold dt. rewrite Hm, geb_of_Z.
  destruct (m <=? numEvents a) eqn:Hfull.
  - apply Z.leb_le in Hfull. lia.
  - unfold new_DataView, SizeOfSdlEvent in *. rewrite Hlen.
    rewrite Z2Nat.id by lia.
    destruct ((numEvents a * 128 <? 0)
              || (m * 128 <? numEvents a * 128)) eqn:H1.
    + apply orb_true_iff in H1 as [H1|H1]; apply Z.ltb_lt in H1; lia.
    + destruct ((128 <? 0) || (m * 128 <? numEvents a * 128 + 128))
        eqn:H2; [|reflexivity].
      apply orb_true_iff in H2 as [H2|H2]; apply Z.ltb_lt in H2; lia.
Qed.

Lemma reachable_well_formed (allocates : Z -> bool) (m : Z) (a0 : t)
    (ops : list operation) (a : t) :
  new allocates (Number.of_Z m) = Return a0 -> Forall well_behaved ops ->
  In a (a0 :: history ops a0) ->
  well_formed a /\ maxEvents a = Number.of_Z m.
Proof.
  intros Hnew Hops Hin.
  destruct (new_whole allocates m a0 Hnew) as (Hn & Hm & Hpos & Hlen).
  assert (Hc : 0 <= numEvents a0 <= Qceiling (inject_Z m))
    by (rewrite Qceiling_Z; lia).
  destruct Hin as [<-|Hin].
  - split; [|exact Hm]. exists m.
    rewrite Qceiling_Z in Hc. auto.
  - pose proof (history_stable (inject_Z m) ops a0 Hops Hm Hc) as Hall.
    rewrite Forall_forall in Hall.
    destruct (Hall a Hin) as (Ha & Hmax & Hbuf).
    rewrite Hm in Hmax. rewrite Qceiling_Z in Ha.
    split; [|exact Hmax]. exists m. rewrite Hbuf. auto.
Qed.

(** X6. On a batch as construction with an integer capacity [m] and any
    sequence of operations leave it, [dt] hands out the 128-byte view of
    the record under the cursor when the cursor is below the capacity, and
    throws "buffer full" when it is at the capacity; the [RangeError] of
    [DataView] never shows. *)
Theorem dt_views_the_cursor_record
    (allocates : Z -> bool) (m : Z) (a0 : t) (ops : list operation) (a : t) :
  new allocates (Number.of_Z m) = Return a0 -> Forall well_behaved ops ->
  In a (a0 :: history ops a0) ->
  dt a = if numEvents a <? m
         then Return {| byteOffset := numEvents a * SizeOfSdlEvent;
                        byteLength := SizeOfSdlEvent |}
         else Throw (Error "PeepEvents buffer full").
Proof.
  intros Hnew Hops Hin.
  destruct (reachable_well_formed allocates m a0 ops a Hnew Hops Hin)
    as [Hwf Hm].
  destruct (numEvents a <? m) eqn:Hlt.
  - apply dt_below_capacity; [exact Hwf|].
    unfold Number.lt. rewrite Hm, ltb_of_Z. exact Hlt.
  - apply Z.ltb_ge in Hlt. apply dt_full.
    unfold Number.ge. rewrite Hm, geb_of_Z. apply Z.leb_le, Hlt.
Qed.

Lemma pushVia_below_capacity (write : list byte -> list byte) (a : t) :
  well_formed a -> (numEvents a < maxEvents a)%number ->
  pushVia write a
  = (Return tt,
     {| buf := view_store (buf a)
                          {| byteOffset := numEvents a * SizeOfSdlEvent;
                             byteLength := SizeOfSdlEvent |}
                          (write (slot (numEvents a) a));
        numEvents := numEvents a + 1;
        maxEvents := maxEvents a |}).
Proof.
  intros Hwf Hlt. unfold pushVia, EventUnion.pushVariant.
  cbn [EventUnion.dt EventUnion.push EventUnion.set_bytes EventUnion.bytes
       impl].
  rewrite (dt_below_capacity a Hwf Hlt). unfold push, set_buf. simpl.
  destruct (below_capacity a Hwf Hlt) as (m & Hm & Hc & Hlen).
  rewrite Hm, geb_of_Z.
  destruct (m <=? numEvents a) eqn:Hfull.
  - apply Z.leb_le in Hfull. lia.
  - rewrite <- Hm. reflexivity.
Qed.

(** X7. A variant push on a batch below capacity returns, moves the cursor up
    by one, puts what the codec wrote (cut to 128 bytes) in the record that
    was under the cursor, and leaves every other record of the batch byte
    for byte as it was. *)
Theorem variant_push_writes_one_record
    (write : list byte -> list byte) (a : t) :
  well_formed a -> (numEvents a < maxEvents a)%number ->
  let a' := snd (pushVia write a) in
  fst (pushVia write a) = Return tt
  /\ numEvents a' = numEvents a + 1
  /\ maxEvents a' = maxEvents a
  /\ slot (numEvents a) a'
     = fit (Z.to_nat SizeOfSdlEvent) (write (slot (numEvents a) a))
  /\ forall j, 0 <= j -> (j < maxEvents a)%number -> j <> numEvents a ->
               slot j a' = slot j a.
Proof.
  intros Hwf Hlt. rewrite (pushVia_below_capacity write a Hwf Hlt).
  destruct (below_capacity a Hwf Hlt) as (m & Hm & Hc & Hlen).
  cbn [fst snd numEvents maxEvents].
  split; [reflexivity|]. split; [reflexivity|]. split; [reflexivity|].
  split.
  - unfold slot. cbn [buf]. rewrite view_store_same; cbn [byteOffset byteLength];
      unfold SizeOfSdlEvent in *; try lia. reflexivity.
  - intros j Hj Hjm Hne. unfold Number.lt in Hjm.
    rewrite Hm, ltb_of_Z in Hjm. apply Z.ltb_lt in Hjm.
    unfold slot. cbn [buf].
    apply view_store_other; cbn [byteOffset byteLength];
      unfold SizeOfSdlEvent in *; lia.
Qed.

(** X8. Push, then look the record up: after a variant push at cursor [c],
    [get(c, fn)] runs [fn] with the cursor back on record [c], where every
    getter reads what the push wrote. *)
Theorem push_then_get_reads_back
    (Obj : Type) (read : Projection -> list byte -> Obj) (p : Projection)
    (write : list byte -> list byte) (fn : callback) (a : t) :
  well_formed a -> (numEvents a < maxEvents a)%number ->
  let c := numEvents a in
  let a' := snd (pushVia write a) in
  fst (get c fn a') = fst (fn (set_numEvents c a'))
  /\ EventUnion.project (I := impl) Obj read p (set_numEvents c a')
     = Return (read p (fit (Z.to_nat SizeOfSdlEvent) (write (slot c a)))).
Proof.
  intros Hwf Hlt c a'. subst c a'.
  rewrite (pushVia_below_capacity write a Hwf Hlt). cbn [snd].
  split.
  - rewrite get_in_range by (simpl; lia). reflexivity.
  - destruct (below_capacity a Hwf Hlt) as (m & Hm & Hc & Hlen).
    unfold EventUnion.project.
    cbn [EventUnion.dt EventUnion.bytes impl].
    rewrite dt_below_capacity.
    + cbn [set_numEvents numEvents buf].
      rewrite view_store_same; cbn [byteOffset byteLength];
        unfold SizeOfSdlEvent in *; try lia. reflexivity.
    + exists m. simpl. split; [exact Hm|]. split; [lia|].
      rewrite length_view_store; cbn [byteOffset byteLength];
        unfold SizeOfSdlEvent in *; lia.
    + exact Hlt.
Qed.
End Records.

(** ** Filling and walking a batch *)

Section Walking.
Import EventArray.

(** A capacity the constructor accepts is above -1: the next integer up
    is not negative. *)
Lemma new_finite (allocates : Z -> bool) (q : Q) (a : t) :
  new allocates (Number.Finite q) = Return a -> 0 <= Qceiling q.
Proof.
  unfold new, Number.ToIndex, Number.mul.
  destruct ((Number.truncate (q * inject_Z SizeOfSdlEvent) <? 0)
            || (2 ^ 53 - 1 <? Number.truncate (q * inject_Z SizeOfSdlEvent)))
    eqn:Hc; [discriminate|].
  intros _. apply orb_false_iff in Hc as [Hneg _]. apply Z.ltb_ge in Hneg.
  apply Z.le_ngt. intros Hlt.
  pose proof (Qle_ceiling q) as Hq.
  destruct q as [n d]. unfold Qle in Hq. simpl in Hq.
  unfold Number.truncate, SizeOfSdlEvent in Hneg. simpl in Hneg.
  set (c := Qceiling (n # d)) in *. clearbody c.
  assert (Hd : 0 < Z.pos d) by apply Pos2Z.is_pos.
  assert (Hcd : c * Z.pos d <= -1 * Z.pos d)
    by (apply Z.mul_le_mono_nonneg_r; lia).
  assert (Hn : Z.pos d <= - n) by lia.
  assert (Hpos : 0 < (- (n * 128)) ÷ Z.pos (d * 1)).
  { apply Z.quot_str_pos. rewrite Pos.mul_1_r. lia. }
  rewrite Z.quot_opp_l in Hpos by lia. lia.
Qed.

Lemma pushes_cursor (q : Q) (k : nat) (a : t) :
  maxEvents a = Number.Finite q -> 0 <= numEvents a <= Qceiling q ->
  numEvents (run_all (repeat Push k) a)
  = Z.min (numEvents a + Z.of_nat k) (Qceiling q)
  /\ maxEvents (run_all (repeat Push k) a) = maxEvents a.
Proof.
  revert a. induction k as [|k IH]; intros a Hq Hc.
  - cbn [repeat run_all fold_left Z.of_nat]. split; [lia|reflexivity].
  - change (run_all (repeat Push (S k)) a)
      with (run_all (repeat Push k) (after Push a)).
    assert (Hq' : maxEvents (after Push a) = Number.Finite q)
      by (rewrite <- Hq; apply (push_keeps_capacity a)).
    assert (Hc' : 0 <= numEvents (after Push a) <= Qceiling q)
      by (apply after_cursor; [exact I|exact Hq|exact Hc]).
    destruct (IH (after Push a) Hq' Hc') as [IHn IHm]. rewrite IHn, IHm.
    simpl. unfold push. rewrite Hq, geb_ceiling.
    destruct (Qceiling q <=? numEvents a) eqn:Hfull; simpl.
    + apply Z.leb_le in Hfull. split; [lia|exact Hq].
    + apply Z.leb_gt in Hfull. split; [lia|exact Hq].
Qed.

(** X9. A batch made by [new EventArray(m)] takes exactly as many pushes as
    the next integer up from [m], which is [m] itself when [m] is an
    integer: after [k] calls of [push()] the cursor is the lesser of [k]
    and that integer, and the next [push()] returns if [k] is below it and
    throws otherwise. *)
Theorem fresh_batch_takes_m_pushes
    (allocates : Z -> bool) (q : Q) (a0 : t) (k : nat) :
  new allocates (Number.Finite q) = Return a0 ->
  numEvents (run_all (repeat Push k) a0) = Z.min (Z.of_nat k) (Qceiling q)
  /\ (fst (push (run_all (repeat Push k) a0)) = Return tt
      <-> Z.of_nat k < Qceiling q)
  /\ (fst (push (run_all (repeat Push k) a0))
      = Throw (Error "PeepEvents buffer full") <-> Qceiling q <= Z.of_nat k).
Proof.
  intros Hnew. destruct (new_fresh allocates _ a0 Hnew) as (Hn & Hm).
  pose proof (new_finite allocates q a0 Hnew) as Hpos.
  assert (Hc : 0 <= numEvents a0 <= Qceiling q) by lia.
  destruct (pushes_cursor q k a0 Hm Hc) as [Hk Hmax].
  rewrite Hn in Hk. simpl in Hk. split; [exact Hk|].
  unfold push. rewrite Hk, Hmax, Hm, geb_ceiling.
  destruct (Qceiling q <=? Z.min (Z.of_nat k) (Qceiling q)) eqn:Hfull; simpl.
  - apply Z.leb_le in Hfull. split; split; intros H;
      try discriminate; try reflexivity; lia.
  - apply Z.leb_gt in Hfull.
    split; split; intros H; try discriminate; try reflexivity; lia.
Qed.

(** With [NaN] for a capacity no test against it holds: [push()] always
    returns. *)
Lemma push_on_NaN (a : t) :
  maxEvents a = Number.NaN ->
  push a = (Return tt, set_numEvents (numEvents a + 1) a).
Proof. intros H. unfold push. rewrite H. reflexivity. Qed.


Lemma fold_loop_visit (f : fold_callback) (todo : nat) (start : nat) (a : t) :
  fold_loop f todo (Z.of_nat start) a
  = visit f (map Z.of_nat (seq start todo)) a.
Proof.
  revert start a. induction todo as [|todo IH]; intros start a; simpl.
  - reflexivity.
  - destruct (f (set_numEvents (Z.of_nat start) a) (Z.of_nat start))
      as [[[|]|x] a']; try reflexivity.
    replace (Z.of_nat start + 1) with (Z.of_nat (S start)) by lia.
    apply IH.
Qed.

(** X11. [fold(fn)] calls [fn] on the records [0, 1, ..., numEvents - 1] in
    that order, each time with the cursor on the record, stops at the first
    call that returns false or throws, and then puts the cursor back. The
    count is the cursor at the start: records a callback pushes are not
    visited. *)
Theorem fold_visits_in_order (f : fold_callback) (a : t) :
  fold f a
  = (fst (visit f (indices_below (numEvents a)) a),
     set_numEvents (numEvents a)
                   (snd (visit f (indices_below (numEvents a)) a))).
Proof.
  unfold fold, indices_below.
  change 0 with (Z.of_nat 0).
  rewrite (fold_loop_visit f (Z.to_nat (numEvents a)) 0 a).
  destruct (visit f (map Z.of_nat (seq 0 (Z.to_nat (numEvents a)))) a).
  reflexivity.
Qed.

(** X12. [fold(fn)] on a batch that holds no event never calls [fn]: it returns
    and leaves the batch as it was. *)
Theorem fold_on_empty_batch (f : fold_callback) (a : t) :
  numEvents a <= 0 -> fold f a = (Return tt, a).
Proof.
  intros Hn. unfold fold.
  replace (Z.to_nat (numEvents a)) with 0%nat by lia. simpl.
  destruct a. reflexivity.
Qed.
End Walking.

(** ** The watcher registry *)

Section Registry.
Import Watchers.

Lemma findIndex_none {A} (test : A -> bool) (l : list A) :
  (forall x, In x l -> test x = false) -> findIndex test l = -1.
Proof.
  induction l as [|x l IH]; intros H; simpl; [reflexivity|].
  rewrite (H x (or_introl eq_refl)), IH by (intros y Hy; apply H; right; exact Hy).
  reflexivity.
Qed.

Lemma findIndex_first {A} (test : A -> bool) (before behind : list A) (x : A) :
  (forall y, In y before -> test y = false) -> test x = true ->
  findIndex test (before ++ x :: behind) = Z.of_nat (List.length before).
Proof.
  induction before as [|y before IH]; intros Hb Hx; simpl.
  - rewrite Hx. reflexivity.
  - rewrite (Hb y (or_introl eq_refl)),
      IH by (auto; intros z Hz; apply Hb; right; exact Hz).
    destruct (Z.of_nat (List.length before) =? -1) eqn:E.
    + apply Z.eqb_eq in E. lia.
    + lia.
Qed.

Lemma remove_none (f : EventFilter) (u : PointerValue) (map : list watcher) :
  (forall i, In i map -> same f u i = false) ->
  remove f u map = (None, map).
Proof.
  intros H. unfold remove. rewrite (findIndex_none _ _ H). reflexivity.
Qed.

Lemma remove_first (f : EventFilter) (u : PointerValue)
    (before behind : list watcher) (x : watcher) :
  (forall i, In i before -> same f u i = false) -> same f u x = true ->
  remove f u (before ++ x :: behind) = (Some (callback x), before ++ behind).
Proof.
  intros Hb Hx. unfold remove, splice_one.
  rewrite (findIndex_first _ before behind x Hb Hx).
  destruct (Z.of_nat (List.length before) =? -1) eqn:E.
  - apply Z.eqb_eq in E. lia.
  - simpl. rewrite Nat2Z.id.
    rewrite nth_error_app2, Nat.sub_diag by lia. simpl.
    rewrite firstn_app, Nat.sub_diag, firstn_all. simpl.
    rewrite app_nil_r, skipn_app, skipn_all2 by lia.
    replace (List.length before + 1 - List.length before)%nat with 1%nat
      by lia.
    reflexivity.
Qed.

Lemma find_app_watcher (test : watcher -> bool) (l r : list watcher) :
  find test (l ++ r)
  = match find test l with Some i => Some i | None => find test r end.
Proof.
  induction l as [|x l IH]; simpl; [reflexivity|].
  destruct (test x); [reflexivity|exact IH].
Qed.

(** X13. Looking a pair up after registering one: an earlier registration
    of the pair looked up wins; otherwise the callback just added is found
    exactly when it was added for that pair. Registering a pair twice
    therefore leaves the first callback the one [get] (and [remove])
    sees. *)
Theorem get_after_add
    (f f' : EventFilter) (u u' : PointerValue) (cb : UnsafeCallback)
    (map : list watcher) :
  get f' u' (add f u cb map)
  = match get f' u' map with
    | Some c => Some c
    | None => if (f =? f') && (u =? u') then Some cb else None
    end.
Proof.
  unfold get, add. rewrite find_app_watcher.
  destruct (find (same f' u') map) as [i|]; [reflexivity|].
  simpl. unfold same. simpl.
  destruct ((f =? f') && (u =? u')); reflexivity.
Qed.


Section Static.
Variable World : Type.
Variable createCb : EventFilter -> World -> UnsafeCallback * World.
Variable close : UnsafeCallback -> World -> World.
Variable addEventWatch : PointerValue -> PointerValue -> World -> bool * World.
Variable removeEventWatch : PointerValue -> PointerValue -> World -> World.
Variable SdlError : string -> World -> exn.

Local Abbreviation addWatch :=
  (Watchers.addWatch World createCb close addEventWatch SdlError).
Local Abbreviation removeWatch :=
  (Watchers.removeWatch World removeEventWatch).

(** X14. [removeWatch(filter, userdata)] takes out the oldest registration of
    the pair, and that one only: the native watch removed is the callback
    of that registration, later registrations of the same pair stay, and
    the order of the rest is kept. *)
Theorem removeWatch_drops_oldest_registration
    (f : EventFilter) (u : PointerValue)
    (before behind : list watcher) (x : watcher) (w : World) :
  (forall i, In i before -> same f u i = false) -> same f u x = true ->
  removeWatch f u (before ++ x :: behind, w)
  = (before ++ behind, removeEventWatch (pointer (callback x)) u w)
  /\ get f u (before ++ x :: behind) = Some (callback x).
Proof.
  intros Hb Hx. split.
  - unfold Watchers.removeWatch. cbn [fst snd].
    rewrite (remove_first f u before behind x Hb Hx). reflexivity.
  - unfold get. rewrite find_app_watcher.
    destruct (find (same f u) before) as [i|] eqn:Hfind.
    + destruct (find_some _ _ Hfind) as [Hin Hi].
      rewrite (Hb i Hin) in Hi. discriminate.
    + simpl. rewrite Hx. reflexivity.
Qed.

(** X15. [removeWatch] of a pair that is not registered does nothing: the
    registry is as it was and the native side is not called. *)
Theorem removeWatch_unknown_pair_is_noop
    (f : EventFilter) (u : PointerValue) (map : list watcher) (w : World) :
  get f u map = None ->
  removeWatch f u (map, w) = (map, w).
Proof.
  intros Hget. unfold Watchers.removeWatch. cbn [fst snd].
  rewrite remove_none; [reflexivity|].
  intros i Hi. unfold get in Hget.
  destruct (find (same f u) map) eqn:Hfind; [discriminate|].
  exact (find_none _ _ Hfind i Hi).
Qed.

(** X16. [addWatch] then [removeWatch] of a pair that was not registered
    before: the registry is back to what it was, and the native watch
    removed is the one that was added (same pointer, same userdata). *)
Theorem addWatch_then_removeWatch
    (f : EventFilter) (u : PointerValue) (map : list watcher)
    (w w1 w2 later : World) (cb : UnsafeCallback) :
  get f u map = None ->
  createCb f w = (cb, w1) ->
  addEventWatch (pointer cb) u w1 = (true, w2) ->
  addWatch f u (map, w) = (Return tt, (add f u cb map, w2))
  /\ removeWatch f u (add f u cb map, later)
     = (map, removeEventWatch (pointer cb) u later).
Proof.
  intros Hget Hcb Hadd. split.
  - unfold Watchers.addWatch. cbn [fst snd]. rewrite Hcb, Hadd. reflexivity.
  - unfold Watchers.removeWatch, add. cbn [fst snd].
    rewrite (remove_first f u map []
               {| filter := f; userdata := u; callback := cb |}).
    + rewrite app_nil_r. reflexivity.
    + intros i Hi. unfold get in Hget.
      destruct (find (same f u) map) eqn:Hfind; [discriminate|].
      exact (find_none _ _ Hfind i Hi).
    + unfold same. simpl. rewrite !Z.eqb_refl. reflexivity.
Qed.

(** X17. When the native call refuses the watch, [addWatch] releases the
    callback it had made, throws, and leaves the registry as it was. *)
Theorem addWatch_failure_registers_nothing
    (f : EventFilter) (u : PointerValue) (map : list watcher)
    (w w1 w2 : World) (cb : UnsafeCallback) :
  createCb f w = (cb, w1) ->
  addEventWatch (pointer cb) u w1 = (false, w2) ->
  addWatch f u (map, w)
  = (Throw (SdlError "addEventWatch" (close cb w2)), (map, close cb w2)).
Proof.
  intros Hcb Hadd. unfold Watchers.addWatch. cbn [fst snd].
  rewrite Hcb, Hadd. reflexivity.
Qed.
End Static.
End Registry.

(** ** Bulk queue access *)

Section PeepFacts.
Variable World : Type.
Variable peepEvents :
  list byte -> Number.t -> Z -> Z -> Z -> World -> Z * list byte * World.
Variable ADDEVENT : Z.
Variable SdlError : string -> World -> exn.

Local Abbreviation peep := (Peep.peep World peepEvents ADDEVENT SdlError).

(** X18. [Event.peep] on a batch: a native failure (-1) throws and leaves the
    cursor; adding leaves the cursor; peeking or getting sets the cursor to
    the count returned. When the native call keeps the size of the buffer
    and returns no more than the capacity it was given, the batch stays
    well formed. *)
Theorem peep_sets_the_cursor
    (a : EventArray.t) (action minType maxType : Z) (w w' : World)
    (r : Z) (b : list byte) :
  well_formed a ->
  peepEvents (EventArray.buf a) (EventArray.maxEvents a)
             action minType maxType w = (r, b, w') ->
  List.length b = List.length (EventArray.buf a) ->
  -1 <= r /\ (r <= EventArray.maxEvents a)%number ->
  let a' := snd (fst (peep a action minType maxType w)) in
  well_formed a'
  /\ EventArray.maxEvents a' = EventArray.maxEvents a
  /\ EventArray.buf a' = b
  /\ EventArray.numEvents a'
     = (if (r =? -1) || (action =? ADDEVENT)
        then EventArray.numEvents a else r)
  /\ fst (fst (peep a action minType maxType w))
     = (if r =? -1 then Throw (SdlError "peepEvents" w') else Return r).
Proof.
  intros (m & Hm & Hc & Hlen) Hnative Hb [Hr Hrm] a'. subst a'.
  unfold Number.le in Hrm. rewrite Hm, leb_of_Z in Hrm.
  apply Z.leb_le in Hrm.
  unfold Peep.peep. rewrite Hnative.
  unfold well_formed.
  destruct (r =? -1) eqn:Hfail; simpl.
  - split; [|auto]. exists m. rewrite Hb. auto.
  - apply Z.eqb_neq in Hfail.
    destruct (action =? ADDEVENT); simpl;
      (split; [exists m; rewrite Hb; split; [exact Hm|split; [lia|exact Hlen]]
              |auto]).
Qed.

(** X19. [Event.peep] never reads the cursor of the batch: the native call gets
    the whole buffer and the capacity as the count, so its result and
    effect are the same whatever the cursor. (With [ADDEVENT] every record
    of the buffer is offered to the queue, filled or not.) *)
Theorem peep_ignores_the_cursor
    (a : EventArray.t) (k action minType maxType : Z) (w : World) :
  fst (fst (peep (EventArray.set_numEvents k a) action minType maxType w))
  = fst (fst (peep a action minType maxType w))
  /\ snd (peep (EventArray.set_numEvents k a) action minType maxType w)
     = snd (peep a action minType maxType w)
  /\ EventArray.buf
       (snd (fst (peep (EventArray.set_numEvents k a)
                       action minType maxType w)))
     = EventArray.buf (snd (fst (peep a action minType maxType w))).
Proof.
  unfold Peep.peep. cbn [EventArray.set_numEvents EventArray.buf
                         EventArray.maxEvents].
  destruct (peepEvents (EventArray.buf a) (EventArray.maxEvents a)
                       action minType maxType w) as [[r b] w'].
  destruct (r =? -1); [repeat split|].
  destruct (action =? ADDEVENT); repeat split.
Qed.
End PeepFacts.

(** ** The pace of [iter] *)

Section Pacing.
Variable EventType : EventTypeName -> Z.
Variable littleEndian : bool.
Variable World : Type.
Variable pollEvent : list byte -> World -> bool * list byte * World.
Variable Time : Type.
Variable Date_now : World -> Time.
Variable plus minus : Time -> Time -> Time.
Variable positive : Time -> bool.
Variable zero : Time.
Variable interval : Time.
Variable onIdle :
  option (Event.t -> World -> completion unit * Event.t * World).

Local Abbreviation drain :=
  (Event.drain EventType littleEndian World pollEvent Time Date_now
               plus minus positive zero interval onIdle).
Local Abbreviation resume :=
  (Event.resume EventType littleEndian World pollEvent Time Date_now
                plus minus positive zero interval onIdle).
Local Abbreviation run_to :=
  (Iteration.run_to EventType littleEndian World pollEvent Time Date_now
                    plus minus positive zero interval onIdle).
Local Abbreviation sleeps := (@Iteration.sleeps Time).
Local Abbreviation deadline := (@Iteration.deadline Time).
Local Abbreviation frames_later := (Iteration.frames_later Time plus interval).

Lemma sleeps_app (l r : list (Event.action Time)) :
  sleeps (l ++ r) = (sleeps l + sleeps r)%nat.
Proof. unfold Iteration.sleeps. rewrite filter_app, length_app. reflexivity. Qed.

Lemma frames_later_add (a b : nat) (d : Time) :
  frames_later (a + b) d = frames_later b (frames_later a d).
Proof. revert d. induction a as [|a IH]; intros d; simpl; auto. Qed.

Lemma run_to_step (env : Event.t -> World -> Event.t * World)
    (rest : list (Event.t -> World -> Event.t * World))
    (st : Event.state Time) (e : Event.t) (w : World) :
  run_to (env :: rest) st e w
  = (fst (fst (fst (resume st (fst (env e w)) (snd (env e w)))))
       ++ fst (fst (fst (run_to rest
            (snd (fst (fst (resume st (fst (env e w)) (snd (env e w))))))
            (snd (fst (resume st (fst (env e w)) (snd (env e w)))))
            (snd (resume st (fst (env e w)) (snd (env e w))))))),
     snd (fst (fst (run_to rest
            (snd (fst (fst (resume st (fst (env e w)) (snd (env e w))))))
            (snd (fst (resume st (fst (env e w)) (snd (env e w)))))
            (snd (resume st (fst (env e w)) (snd (env e w))))))),
     snd (fst (run_to rest
            (snd (fst (fst (resume st (fst (env e w)) (snd (env e w))))))
            (snd (fst (resume st (fst (env e w)) (snd (env e w)))))
            (snd (resume st (fst (env e w)) (snd (env e w)))))),
     snd (run_to rest
            (snd (fst (fst (resume st (fst (env e w)) (snd (env e w))))))
            (snd (fst (resume st (fst (env e w)) (snd (env e w)))))
            (snd (resume st (fst (env e w)) (snd (env e w)))))).
Proof.
  simpl. destruct (env e w) as [e0 w0]. simpl.
  destruct (resume st e0 w0) as [[[acts st1] e1] w1]. simpl.
  destruct (run_to rest st1 e1 w1) as [[[more st2] e2] w2]. reflexivity.
Qed.

Lemma run_to_Completed (between : list (Event.t -> World -> Event.t * World))
    (e : Event.t) (w : World) :
  snd (fst (fst (run_to between Event.Completed e w))) = Event.Completed.
Proof.
  revert e w. induction between as [|env rest IH]; intros e w.
  - reflexivity.
  - rewrite run_to_step. cbn [fst snd]. simpl. apply IH.
Qed.

Lemma drain_deadline (d : Time) (e : Event.t) (w : World) :
  let r := drain d e w in
  (exists q, snd (fst (fst r)) = Event.AtYield q d
             /\ sleeps (fst (fst (fst r))) = 0%nat)
  \/ (snd (fst (fst r)) = Event.AtSleep (plus d interval)
      /\ sleeps (fst (fst (fst r))) = 1%nat)
  \/ snd (fst (fst r)) = Event.Completed.
Proof.
  unfold Event.drain.
  destruct (Event.poll littleEndian World pollEvent e w) as [[got e1] w1].
  destruct got; simpl.
  - left. eexists. split; reflexivity.
  - unfold Event.call_onIdle. destruct onIdle as [f|].
    + destruct (f e1 w1) as [[c e2] w2]. destruct c; simpl; auto.
    + simpl. auto.
Qed.

(** X20. The deadline of the next frame moves by exactly one [interval] for
    each sleep and by nothing else: after any run it is the deadline at the
    start plus as many intervals as the run slept, whatever the clock
    showed on the way and however long the consumer took. *)
Theorem deadline_moves_one_interval_per_sleep
    (between : list (Event.t -> World -> Event.t * World))
    (st : Event.state Time) (e : Event.t) (w : World) (d d' : Time) :
  deadline st = Some d ->
  deadline (snd (fst (fst (run_to between st e w)))) = Some d' ->
  d' = frames_later (sleeps (fst (fst (fst (run_to between st e w))))) d.
Proof.
  revert st e w d. induction between as [|env rest IH]; intros st e w d Hd Hd'.
  - simpl in *. congruence.
  - rewrite run_to_step in Hd' |- *. cbn [fst snd] in Hd' |- *.
    rewrite sleeps_app, frames_later_add.
    destruct (env e w) as [e0 w0]. cbn [fst snd] in *.
    assert (Hdrain :
              forall rs, rs = drain d e0 w0 ->
              deadline (snd (fst (fst (run_to rest (snd (fst (fst rs)))
                                              (snd (fst rs)) (snd rs)))))
              = Some d' ->
              d' = frames_later
                     (sleeps (fst (fst (fst (run_to rest (snd (fst (fst rs)))
                                                    (snd (fst rs)) (snd rs))))))
                     (frames_later (sleeps (fst (fst (fst rs)))) d)).
    { intros rs Hrs Hrun.
      destruct (drain_deadline d e0 w0) as [(q & Hst & Hs) | [(Hst & Hs) | Hst]];
        rewrite <- Hrs in *.
      - rewrite Hs. simpl. apply IH; [rewrite Hst; reflexivity|exact Hrun].
      - rewrite Hs. simpl. apply IH; [rewrite Hst; reflexivity|exact Hrun].
      - rewrite Hst, run_to_Completed in Hrun. discriminate. }
    destruct st as [|is_quit nextFrame|nextFrame|]; simpl in Hd;
      try discriminate; injection Hd as ->.
    + destruct is_quit.
      * simpl in Hd'. rewrite run_to_Completed in Hd'. discriminate.
      * apply (Hdrain _ eq_refl). exact Hd'.
    + apply (Hdrain _ eq_refl). exact Hd'.
Qed.
End Pacing.

(** ** [iter] on a first-in first-out queue *)

Section Fifo.
Variable EventType : EventTypeName -> Z.
Variable littleEndian : bool.
Variable Time : Type.
Variable Date_now : NativeQueue.queue -> Time.
Variable plus minus : Time -> Time -> Time.
Variable positive : Time -> bool.
Variable zero : Time.
Variable interval : Time.
Variable onIdle :
  option (Event.t -> NativeQueue.queue
          -> completion unit * Event.t * NativeQueue.queue).

Local Abbreviation resume :=
  (Event.resume EventType littleEndian NativeQueue.queue NativeQueue.pollEvent
                Time Date_now plus minus positive zero interval onIdle).
Local Abbreviation run_to :=
  (Iteration.run_to EventType littleEndian NativeQueue.queue
                    NativeQueue.pollEvent Time Date_now
                    plus minus positive zero interval onIdle).
Local Abbreviation loaded := (Iteration.loaded littleEndian).
Local Abbreviation yields := (@Iteration.yields Time littleEndian).
Local Abbreviation after_polling := (Iteration.after_polling littleEndian).
Local Abbreviation undisturbed :=
  (@Iteration.undisturbed NativeQueue.queue).
Local Abbreviation frame_due :=
  (Iteration.frame_due NativeQueue.queue Time Date_now plus zero interval).
Local Abbreviation polls_next := (@Iteration.polls_next Time).

(** A record whose tag is not [QUIT]. *)
Local Abbreviation not_quit r :=
  (getUint32 littleEndian r 0 <> EventType QUIT).

Lemma run_to_undisturbed
    (rest : list (Event.t -> NativeQueue.queue -> Event.t * NativeQueue.queue))
    (st st1 st2 : Event.state Time) (e e1 e2 : Event.t)
    (w w1 w2 : NativeQueue.queue) (acts more : list (Event.action Time)) :
  resume st e w = (acts, st1, e1, w1) ->
  run_to rest st1 e1 w1 = (more, st2, e2, w2) ->
  run_to (undisturbed :: rest) st e w = (acts ++ more, st2, e2, w2).
Proof.
  intros Hres Hrun. cbn [Iteration.run_to Iteration.undisturbed].
  rewrite Hres, Hrun. reflexivity.
Qed.

Lemma resume_on_event (st : Event.state Time) (e : Event.t)
    (r : list byte) (q : NativeQueue.queue) :
  polls_next st ->
  resume st e (r :: q)
  = ([Event.Polled true; Event.Yielded (loaded r)],
     Event.AtYield (getUint32 littleEndian r 0 =? EventType QUIT)
                   (frame_due st (r :: q)),
     loaded r, q).
Proof.
  destruct st as [|is_quit d|d|]; simpl; intros Hst;
    try reflexivity; try contradiction.
  subst is_quit. reflexivity.
Qed.

Lemma run_to_yields (evs : list (list byte))
    (more : list (Event.t -> NativeQueue.queue -> Event.t * NativeQueue.queue))
    (st st2 : Event.state Time) (e e2 : Event.t)
    (q w2 : NativeQueue.queue) (trace : list (Event.action Time)) :
  polls_next st ->
  Forall (fun r => not_quit r) evs ->
  run_to more
         (match evs with
          | [] => st
          | _ :: _ => Event.AtYield false (frame_due st (evs ++ q))
          end)
         (after_polling evs e) q
  = (trace, st2, e2, w2) ->
  run_to (repeat undisturbed (List.length evs) ++ more) st e (evs ++ q)
  = (yields evs ++ trace, st2, e2, w2).
Proof.
  intros Hst Hevs. revert st e Hst.
  induction Hevs as [|r evs Hr _ IH]; intros st e Hst Hmore.
  - exact Hmore.
  - simpl repeat. simpl app.
    change (yields (r :: evs) ++ trace)
      with ([Event.Polled true; Event.Yielded (loaded r)]
              ++ (yields evs ++ trace)).
    apply (run_to_undisturbed _ st _ _ e _ _ (r :: evs ++ q) _ _ _ _
                              (resume_on_event st e r (evs ++ q) Hst)).
    apply Z.eqb_neq in Hr. rewrite Hr.
    apply IH; [reflexivity|].
    simpl in Hmore. destruct evs; exact Hmore.
Qed.

Lemma run_to_first_quit
    (st : Event.state Time) (e : Event.t)
    (evs : list (list byte)) (quit_record : list byte)
    (behind : NativeQueue.queue) :
  polls_next st ->
  Forall (fun r => not_quit r) evs ->
  getUint32 littleEndian quit_record 0 = EventType QUIT ->
  run_to (repeat undisturbed (List.length evs + 2)) st e
         (evs ++ quit_record :: behind)
  = (yields (evs ++ [quit_record]) ++ [Event.Returned],
     Event.Completed, loaded quit_record, behind).
Proof.
  intros Hst Hevs Hquit.
  replace (List.length evs + 2)%nat with (List.length evs + (1 + 1))%nat
    by lia.
  rewrite repeat_app. unfold Iteration.yields. rewrite flat_map_app.
  rewrite <- app_assoc.
  apply run_to_yields; [exact Hst|exact Hevs|].
  simpl repeat.
  assert (Hst' : polls_next
                   (match evs with
                    | [] => st
                    | _ :: _ =>
                        Event.AtYield false
                          (frame_due st (evs ++ quit_record :: behind))
                    end))
    by (destruct evs; [exact Hst|reflexivity]).
  eapply run_to_undisturbed.
  - apply resume_on_event. exact Hst'.
  - rewrite Hquit, Z.eqb_refl. reflexivity.
Qed.

(** X21. On a first-in first-out queue, left alone by the consumer, the
    generator yields the queued events in queue order up to and including
    the first [QUIT]-tagged one and then ends: each event is yielded with
    its record loaded and its tag cached, [onIdle] is never called, there
    is no sleep, and what is queued behind the quit event stays in the
    queue. *)
Theorem iter_yields_in_queue_order_up_to_quit
    (st : Event.state Time) (e : Event.t)
    (evs : list (list byte)) (quit_record : list byte)
    (behind : NativeQueue.queue) :
  polls_next st ->
  Forall (fun r => not_quit r) evs ->
  getUint32 littleEndian quit_record 0 = EventType QUIT ->
  run_to (repeat undisturbed (List.length evs + 2)) st e
         (evs ++ quit_record :: behind)
  = (yields (evs ++ [quit_record]) ++ [Event.Returned],
     Event.Completed, loaded quit_record, behind).
Proof. apply run_to_first_quit. Qed.

Lemma poll_on_empty (e : Event.t) :
  Event.poll littleEndian NativeQueue.queue NativeQueue.pollEvent e []
  = (false, e, []).
Proof. destruct e. reflexivity. Qed.

(** X22. One tick on a first-in first-out queue: woken by its timer with some
    events queued (none tagged [QUIT]), the generator yields them all in
    queue order, then finds the queue empty, calls [onIdle] once if there
    is one, and goes to sleep for what is left until the frame is due (not
    less than zero), with the next frame due one interval later. *)
Theorem tick_drains_then_idles_then_sleeps
    (d : Time) (e e' : Event.t) (evs : list (list byte))
    (idle : list (Event.action Time)) (w' : NativeQueue.queue) :
  Forall (fun r => not_quit r) evs ->
  Event.call_onIdle NativeQueue.queue Time onIdle (after_polling evs e) []
  = (idle, Return tt, e', w') ->
  run_to (repeat undisturbed (List.length evs + 1)) (Event.AtSleep d) e evs
  = (yields evs
       ++ Event.Polled false
       :: idle
       ++ [Event.Slept (if positive (minus d (Date_now w'))
                        then minus d (Date_now w') else zero)],
     Event.AtSleep (plus d interval), e', w')
  /\ (idle = [] \/ idle = [Event.Idled]).
Proof.
  intros Hevs Hidle. split.
  - rewrite repeat_app.
    rewrite <- (app_nil_r evs) at 2.
    apply run_to_yields; [exact I|exact Hevs|].
    simpl repeat. rewrite <- (app_nil_r (_ :: idle ++ _)).
    eapply run_to_undisturbed; [|reflexivity].
    assert (Hdrain : forall d0,
               Event.drain EventType littleEndian NativeQueue.queue
                           NativeQueue.pollEvent Time Date_now plus minus
                           positive zero interval onIdle d0
                           (after_polling evs e) []
               = (Event.Polled false
                    :: idle
                    ++ [Event.Slept (if positive (minus d0 (Date_now w'))
                                     then minus d0 (Date_now w') else zero)],
                  Event.AtSleep (plus d0 interval), e', w')).
    { intros d0. unfold Event.drain. rewrite poll_on_empty, Hidle.
      reflexivity. }
    destruct evs; simpl; apply Hdrain.
  - unfold Event.call_onIdle in Hidle. destruct onIdle as [f|].
    + destruct (f (after_polling evs e) []) as [[c e2] w2].
      inversion Hidle. right. reflexivity.
    + inversion Hidle. left. reflexivity.
Qed.
End Fifo.

(** ** Quitting from inside the loop *)

Section QuitFromTheLoop.
Variable EventType : EventTypeName -> Z.
Variable littleEndian : bool.
Variable Time : Type.
Variable Date_now : NativeQueue.queue -> Time.
Variable plus minus : Time -> Time -> Time.
Variable positive : Time -> bool.
Variable zero : Time.
Variable interval : Time.
Variable onIdle :
  option (Event.t -> NativeQueue.queue
          -> completion unit * Event.t * NativeQueue.queue).
Variable write_QuitEvent : QuitEvent -> list byte -> list byte.

Local Abbreviation run_to :=
  (Iteration.run_to EventType littleEndian NativeQueue.queue
                    NativeQueue.pollEvent Time Date_now
                    plus minus positive zero interval onIdle).
Local Abbreviation pushQuit :=
  (EventUnion.pushQuit
     (I := Event.impl NativeQueue.queue NativeQueue.pushEvent)
     EventType write_QuitEvent).

(** X23. The consumer of [iter] calls [pushQuit(e)] on the event it was
    yielded, with events still queued (none tagged [QUIT]) and a codec
    that leaves the [QUIT] tag at the start of the record: the record goes
    to the back of the first-in first-out queue, the generator yields the
    events queued before it, then the quit event, and ends. *)
Theorem pushQuit_ends_the_loop
    (d : Time) (e : Event.t) (partial : PartialCommon)
    (pending : NativeQueue.queue) :
  let s := snd (pushQuit partial (e, pending)) in
  Forall (fun r => getUint32 littleEndian r 0 <> EventType QUIT) pending ->
  getUint32 littleEndian (Event.record (fst s)) 0 = EventType QUIT ->
  snd s = pending ++ [Event.record (fst s)]
  /\ run_to (repeat Iteration.undisturbed (List.length pending + 2))
            (Event.AtYield false d) (fst s) (snd s)
     = (Iteration.yields littleEndian (pending ++ [Event.record (fst s)])
          ++ [Event.Returned],
        Event.Completed,
        Iteration.loaded littleEndian (Event.record (fst s)),
        []).
Proof.
  intros s Hpending Hquit.
  assert (Hs : snd s = pending ++ [Event.record (fst s)]) by reflexivity.
  split; [exact Hs|].
  rewrite Hs.
  apply run_to_first_quit; [reflexivity|exact Hpending|exact Hquit].
Qed.
End QuitFromTheLoop.

(** * The snake *)

Section SnakeFacts.
Import Snake.

Lemma createFood_spec (draws draws' : list SnakePos) (s s' : t) :
  createFood draws s = Some (s', draws') ->
  exists p,
    In p draws /\ is_cell Nothing (cellAt s p) = true
    /\ s' = setCell p FOOD s.
Proof.
  induction draws as [|p rest IH]; simpl; [discriminate|].
  destruct (is_cell Nothing (cellAt s p)) eqn:Hp.
  - intros [= <- _]. exists p. auto.
  - intros H. destruct (IH H) as (p' & Hin & Hc & Hs). exists p'. auto.
Qed.

Lemma setCell_other (p : SnakePos) (c : SnakeCell) (s : t) (q : SnakePos) :
  key q <> key p -> cellAt (setCell p c s) q = cellAt s q.
Proof.
  intros Hk. unfold cellAt, setCell. simpl.
  destruct (key q =? key p) eqn:E; [apply Z.eqb_eq in E; contradiction|].
  reflexivity.
Qed.

Lemma setCell_same (p : SnakePos) (c : SnakeCell) (s : t) (q : SnakePos) :
  key q = key p -> cellAt (setCell p c s) q = Some c.
Proof.
  intros Hk. unfold cellAt, setCell. simpl. rewrite Hk, Z.eqb_refl.
  reflexivity.
Qed.

Lemma createFood_keeps_snake (draws draws' : list SnakePos) (s s' : t)
    (q : SnakePos) :
  createFood draws s = Some (s', draws') ->
  is_cell Nothing (cellAt s q) = false ->
  cellAt s' q = cellAt s q.
Proof.
  intros H Hq. destruct (createFood_spec _ _ _ _ H) as (p & _ & Hp & ->).
  apply setCell_other. intros Hk. unfold cellAt in *. rewrite Hk in Hq.
  congruence.
Qed.

Lemma is_cell_cell_of_not_Nothing (dir : SnakeDirection) :
  is_cell Nothing (Some (cell_of dir)) = false.
Proof. destruct dir; reflexivity. Qed.

(** What [step()] has done when it returns. *)
Lemma step_returned
    (draws draws' : list SnakePos) (s s' : t) (b : bool) :
  step draws s = Some (b, s', draws') ->
  (b = true <-> state s' = Playing)
  /\ (state s = Playing ->
      step_count s' = step_count s + 1
      /\ (b = false -> (state s' = GameOver \/ state s' = Congratulation)
                       /\ draws' = draws)).
Proof.
  unfold step.
  destruct (is_playing (state s)) eqn:Hplaying; simpl.
  - assert (Hs : state s = Playing)
      by (destruct (state s); try discriminate; reflexivity).
    assert (Hcount : step_count (step_tail s) = step_count s + 1
                     /\ state (step_tail s) = GameOver).
    { unfold step_tail. destruct (inhibit_tail_step s - 1 =? 0); auto. }
    destruct Hcount as [Hcount Hover].
    destruct (off_board _).
    { intros [= <- <- <-]. simpl. rewrite Hover, Hcount.
      repeat split; auto; try congruence; try discriminate. }
    destruct (negb _ && negb _).
    { intros [= <- <- <-]. simpl. rewrite Hover, Hcount.
      repeat split; auto; try congruence; try discriminate. }
    destruct (is_cell FOOD _).
    + destruct (cellsFull _).
      { intros [= <- <- <-]. simpl. rewrite Hcount.
        repeat split; auto; try congruence; try discriminate. }
      destruct (createFood draws _) as [[s4 d4]|] eqn:Hfood; [|discriminate].
      intros [= <- <- <-]. simpl.
      destruct (createFood_spec _ _ _ _ Hfood) as (p & _ & _ & ->).
      simpl. rewrite Hcount.
      repeat split; auto; try congruence; try discriminate.
    + intros [= <- <- <-]. simpl. rewrite Hcount.
      repeat split; auto; try congruence; try discriminate.
  - assert (Hs : state s <> Playing)
      by (destruct (state s); try discriminate; simpl in Hplaying; congruence).
    intros [= <- <- <-].
    repeat split; auto; try congruence; try contradiction.
Qed.

(** X24. [step()] in any state but "Playing" returns false, changes nothing
    and draws no random number. A step whose head does not come upon food
    returns as well, without a draw: only the search for a free cell in
    [createFood] can keep [step()] from returning. And the result tells
    whether the game goes on: it is true exactly when the state afterwards
    is "Playing"; a step taken while playing is counted, and when it fails
    the game is over or won and nothing was drawn. *)
Theorem step_result_tells_the_state (draws : list SnakePos) (s : t) :
  (state s <> Playing -> step draws s = Some (false, s, draws))
  /\ (is_cell FOOD (cellAt (step_tail s) (forward (next_dir s) (head s)))
      = false ->
      exists b s', step draws s = Some (b, s', draws))
  /\ (forall b s' draws',
         step draws s = Some (b, s', draws') ->
         (b = true <-> state s' = Playing)
         /\ (state s = Playing ->
             step_count s' = step_count s + 1
             /\ (b = false ->
                 (state s' = GameOver \/ state s' = Congratulation)
                 /\ draws' = draws))).
Proof.
  split; [|split].
  - intros Hs. unfold step.
    destruct (state s); try reflexivity. contradiction.
  - intros Hfood. unfold step.
    destruct (negb (is_playing (state s))); [eauto|]. cbv zeta.
    assert (Hh : head (step_tail s) = head s
                 /\ next_dir (step_tail s) = next_dir s)
      by (unfold step_tail; destruct (inhibit_tail_step s - 1 =? 0); auto).
    destruct Hh as [Hh Hd]. rewrite Hh, Hd.
    cbn [head next_dir].
    destruct (off_board _); [eauto|].
    assert (Hcell : forall h t d i o st l c p,
               cellAt (mk (cells (step_tail s)) h t d i o st l c) p
               = cellAt (step_tail s) p) by reflexivity.
    rewrite !Hcell, Hfood.
    destruct (negb false && _); eauto.
  - intros b s' draws'. apply step_returned.
Qed.
End SnakeFacts.

Section SnakeMoves.
Import Snake.

Lemma step_tail_keeps (s : t) :
  head (step_tail s) = head s /\ next_dir (step_tail s) = next_dir s
  /\ state (step_tail s) = GameOver.
Proof.
  unfold step_tail. destruct (inhibit_tail_step s - 1 =? 0); auto.
Qed.

Lemma cell_of_not_opposite (dir : SnakeDirection) :
  is_cell (cell_of (opposite dir)) (Some (cell_of dir)) = false.
Proof. destruct dir; reflexivity. Qed.

(** X25. A step that succeeds moves the head one cell the way of [next_dir],
    to a cell of the board; the cell it left and the cell it reached both
    point that way afterwards, food put down in the same step never lands
    on them, and the snake is again heading a way it may keep. *)
Theorem step_moves_the_head_one_cell
    (draws draws' : list SnakePos) (s s' : t) :
  state s = Playing ->
  step draws s = Some (true, s', draws') ->
  head s' = forward (next_dir s) (head s)
  /\ off_board (head s') = false
  /\ next_dir s' = next_dir s
  /\ cellAt s' (head s') = Some (cell_of (next_dir s))
  /\ cellAt s' (head s) = Some (cell_of (next_dir s))
  /\ no_turning_back s'.
Proof.
  intros Hs. unfold step. rewrite Hs. cbn [is_playing negb]. cbv zeta.
  destruct (step_tail_keeps s) as (Hh & Hd & _).
  set (s1 := step_tail s) in *.
  set (s2 := mk (cells s1) (forward (next_dir s1) (head s1)) (tail s1)
                (next_dir s1) (inhibit_tail_step s1) (occupied_cells s1)
                (state s1) (lastStep s1) (step_count s1)).
  set (s3 := setCell (head s2) (cell_of (next_dir s2))
                     (setCell (head s1) (cell_of (next_dir s2)) s2)).
  assert (Hhead3 : cellAt s3 (head s2) = Some (cell_of (next_dir s)))
    by (unfold s3; rewrite setCell_same by reflexivity; simpl; congruence).
  assert (Hprev3 : cellAt s3 (head s1) = Some (cell_of (next_dir s))).
  { unfold s3. destruct (Z.eq_dec (key (head s1)) (key (head s2))) as [E|E].
    - rewrite setCell_same by exact E. simpl. congruence.
    - rewrite setCell_other by exact E.
      rewrite setCell_same by reflexivity. simpl. congruence. }
  assert (Hfacts : forall s4,
             head s4 = head s2 -> next_dir s4 = next_dir s2 ->
             cellAt s4 (head s2) = Some (cell_of (next_dir s)) ->
             cellAt s4 (head s1) = Some (cell_of (next_dir s)) ->
             off_board (head s2) = false ->
             head s4 = forward (next_dir s) (head s)
             /\ off_board (head s4) = false
             /\ next_dir s4 = next_dir s
             /\ cellAt s4 (head s4) = Some (cell_of (next_dir s))
             /\ cellAt s4 (head s) = Some (cell_of (next_dir s))
             /\ no_turning_back s4).
  { assert (Hh2 : head s2 = forward (next_dir s) (head s))
      by (unfold s2; simpl; rewrite Hd, Hh; reflexivity).
    assert (Hd2 : next_dir s2 = next_dir s) by exact Hd.
    intros s4 H4h H4d H4c H4p Hoff.
    rewrite Hh2 in H4h, H4c, Hoff. rewrite Hh in H4p. rewrite Hd2 in H4d.
    unfold no_turning_back. rewrite H4h, H4d, H4c.
    repeat split; auto. apply cell_of_not_opposite. }
  destruct (off_board (head s2)) eqn:Hoff; [discriminate|].
  destruct (negb _ && negb _); [discriminate|].
  destruct (is_cell FOOD _).
  - destruct (cellsFull s3); [discriminate|].
    destruct (createFood draws s3) as [[s4 d4]|] eqn:Hfood; [|discriminate].
    intros [= <- <-].
    assert (H4h : cellAt s4 (head s2) = Some (cell_of (next_dir s))).
    { rewrite (createFood_keeps_snake _ _ _ _ _ Hfood); [exact Hhead3|].
      rewrite Hhead3. apply is_cell_cell_of_not_Nothing. }
    assert (H4p : cellAt s4 (head s1) = Some (cell_of (next_dir s))).
    { rewrite (createFood_keeps_snake _ _ _ _ _ Hfood); [exact Hprev3|].
      rewrite Hprev3. apply is_cell_cell_of_not_Nothing. }
    destruct (createFood_spec _ _ _ _ Hfood) as (p & _ & _ & Hs4).
    apply Hfacts; try (rewrite Hs4; reflexivity); auto.
  - intros [= <- <-]. apply Hfacts; auto.
Qed.

(** X26. Running into a wall, or into a cell that still holds a piece of the
    snake once the tail has moved, ends the game: [step()] returns false,
    the state is "Game Over", and no random number is drawn. *)
Theorem collision_ends_the_game (draws : list SnakePos) (s : t) :
  state s = Playing ->
  off_board (forward (next_dir s) (head s)) = true
  \/ (exists dir, cellAt (step_tail s) (forward (next_dir s) (head s))
                  = Some (cell_of dir)) ->
  exists s', step draws s = Some (false, s', draws)
             /\ state s' = GameOver
             /\ head s' = forward (next_dir s) (head s).
Proof.
  intros Hs Hhit. unfold step. rewrite Hs. simpl.
  destruct (step_tail_keeps s) as (Hh & Hd & Hover).
  rewrite Hh, Hd.
  destruct (off_board (forward (next_dir s) (head s))) eqn:Hoff.
  - eexists. split; [reflexivity|]. simpl. auto.
  - destruct Hhit as [Hwall | [dir Hcell]]; [discriminate|].
    unfold cellAt in *. simpl. rewrite Hcell.
    assert (Hsnake : negb (is_cell FOOD (Some (cell_of dir)))
                     && negb (is_cell Nothing (Some (cell_of dir))) = true)
      by (destruct dir; reflexivity).
    rewrite Hsnake.
    eexists. split; [reflexivity|]. simpl. auto.
Qed.

(** X27. The tail moves on the steps taken with [inhibit_tail_step] at 1, and
    then follows the way its cell points; on the other steps it stays and
    the counter counts down. Once at least 1, the counter never drops
    below 1. *)
Theorem tail_moves_when_not_inhibited
    (draws draws' : list SnakePos) (s s' : t) (b : bool) :
  state s = Playing ->
  step draws s = Some (b, s', draws') ->
  (inhibit_tail_step s = 1 ->
   tail s' = follow (cellAt s (tail s)) (tail s))
  /\ (inhibit_tail_step s <> 1 -> tail s' = tail s)
  /\ (1 <= inhibit_tail_step s -> 1 <= inhibit_tail_step s').
Proof.
  intros Hs. unfold step. rewrite Hs. simpl.
  assert (Htail : (inhibit_tail_step s = 1 ->
                   tail (step_tail s) = follow (cellAt s (tail s)) (tail s))
                  /\ (inhibit_tail_step s <> 1 -> tail (step_tail s) = tail s)
                  /\ (1 <= inhibit_tail_step s ->
                      1 <= inhibit_tail_step (step_tail s))).
  { unfold step_tail.
    destruct (inhibit_tail_step s - 1 =? 0) eqn:E; simpl.
    - apply Z.eqb_eq in E. repeat split; auto; lia.
    - apply Z.eqb_neq in E. repeat split; auto; lia. }
  set (s1 := step_tail s) in *.
  destruct (off_board _); [intros [= <- <- <-]; exact Htail|].
  destruct (negb _ && negb _); [intros [= <- <- <-]; exact Htail|].
  destruct (is_cell FOOD _).
  - destruct (cellsFull _); [intros [= <- <- <-]; exact Htail|].
    destruct (createFood draws _) as [[s4 d4]|] eqn:Hfood; [|discriminate].
    intros [= <- <- <-].
    destruct (createFood_spec _ _ _ _ Hfood) as (p & _ & _ & ->). simpl.
    destruct Htail as (H1 & H2 & H3). repeat split; auto.
    intros H. specialize (H3 H). lia.
  - intros [= <- <- <-]. exact Htail.
Qed.

(** X28. [redir(dir)] changes [next_dir] and nothing else, and only when [dir]
    is not the opposite of the way the head cell points: the snake never
    comes to head back into its own neck. *)
Theorem redir_never_turns_back (dir : SnakeDirection) (s : t) :
  (is_cell (cell_of (opposite dir)) (cellAt s (head s)) = true ->
   redir dir s = s)
  /\ (is_cell (cell_of (opposite dir)) (cellAt s (head s)) = false ->
      redir dir s = set_next_dir dir s)
  /\ (no_turning_back s -> no_turning_back (redir dir s)).
Proof.
  assert (Hallowed :
            redir dir s
            = if negb (is_cell (cell_of (opposite dir)) (cellAt s (head s)))
              then set_next_dir dir s else s)
    by (unfold redir; destruct dir; reflexivity).
  rewrite Hallowed.
  destruct (is_cell (cell_of (opposite dir)) (cellAt s (head s))) eqn:Hc;
    simpl; repeat split; auto; try discriminate.
Qed.

(** Pausing twice is resuming: [toggle_pause()] twice leaves the context
    as it was, and outside of "Playing" and "Pausing" once already does. *)
Theorem toggle_pause_twice (s : t) :
  toggle_pause (toggle_pause s) = s
  /\ (state s <> Playing -> state s <> Pausing -> toggle_pause s = s).
Proof.
  split.
  - destruct s as [cs h tl d i o st l c]. destruct st; reflexivity.
  - intros H1 H2. unfold toggle_pause. destruct (state s); congruence.
Qed.
End SnakeMoves.

Section SnakeStart.
Import Snake.

Lemma indices_below_In (n k : Z) : In k (indices_below n) <-> 0 <= k < n.
Proof.
  unfold indices_below. rewrite in_map_iff. split.
  - intros (i & <- & Hi). apply in_seq in Hi. lia.
  - intros Hk. exists (Z.to_nat k). split; [lia|]. apply in_seq. lia.
Qed.

Lemma indices_below_NoDup (n : Z) : NoDup (indices_below n).
Proof.
  unfold indices_below. generalize (seq_NoDup (Z.to_nat n) 0).
  generalize (seq 0 (Z.to_nat n)). intros l Hl.
  induction Hl as [|a l Ha _ IH]; simpl; constructor; [|exact IH].
  rewrite in_map_iff. intros (b & Hb & Hin).
  apply Nat2Z.inj in Hb. subst b. contradiction.
Qed.

Lemma filter_flip_one (f g : Z -> bool) (l : list Z) (k : Z) :
  NoDup l -> In k l -> f k = false -> g k = true ->
  (forall j, j <> k -> g j = f j) ->
  List.length (filter g l) = S (List.length (filter f l)).
Proof.
  intros Hnd Hin Hf Hg Hsame.
  induction l as [|a l IH]; [destruct Hin|].
  inversion Hnd as [|? ? Ha Hl]; subst.
  destruct (Z.eq_dec a k) as [->|Hne].
  - simpl. rewrite Hf, Hg. simpl. f_equal.
    f_equal. apply filter_ext_in. intros j Hj. apply Hsame.
    intros ->. contradiction.
  - destruct Hin as [->|Hin]; [contradiction|].
    simpl. rewrite (Hsame a Hne).
    destruct (f a); simpl; rewrite (IH Hl Hin); reflexivity.
Qed.

Lemma filter_none (f : Z -> bool) (l : list Z) :
  filter f l = [] <-> forall k, In k l -> f k = false.
Proof.
  induction l as [|a l IH]; simpl.
  - split; [intros _ k []|reflexivity].
  - destruct (f a) eqn:Ha.
    + split; [discriminate|]. intros H. rewrite (H a) in Ha by auto.
      discriminate.
    + rewrite IH. split.
      * intros H k [<-|Hk]; auto.
      * intros H k Hk. apply H. auto.
Qed.

Lemma food_on_Nothing (p : SnakePos) (s : t) :
  board (cells s) -> is_cell Nothing (cellAt s p) = true ->
  board (cells (setCell p FOOD s))
  /\ List.length (keys_with FOOD (cells (setCell p FOOD s)))
     = S (List.length (keys_with FOOD (cells s))).
Proof.
  intros [Hlen Hout] Hp. unfold cellAt in Hp.
  assert (Hin : 0 <= key p < snakeGameWidth * snakeGameHeight).
  { destruct (Z_lt_dec (key p) 0) as [Hneg|Hpos].
    - rewrite (Hout (key p)) in Hp by lia. discriminate.
    - destruct (Z_le_dec (snakeGameWidth * snakeGameHeight) (key p)) as [Hbig|];
        [|lia].
      rewrite (Hout (key p)) in Hp by lia. discriminate. }
  assert (Hlen' : length (cells (setCell p FOOD s)) = length (cells s)).
  { simpl. destruct (key p >=? length (cells s)) eqn:E; [|reflexivity].
    apply Z.geb_le in E. lia. }
  split.
  - split; [congruence|]. intros k Hk. simpl.
    destruct (k =? key p) eqn:E; [apply Z.eqb_eq in E; lia|]. apply Hout, Hk.
  - unfold keys_with. rewrite Hlen'.
    apply (filter_flip_one _ _ _ (key p)).
    + apply indices_below_NoDup.
    + apply indices_below_In. lia.
    + destruct (at_key (cells s) (key p)) as [[| | | | |]|]; try discriminate.
      reflexivity.
    + simpl. rewrite Z.eqb_refl. reflexivity.
    + intros j Hj. simpl.
      destruct (j =? key p) eqn:E; [apply Z.eqb_eq in E; contradiction|].
      reflexivity.
Qed.

Lemma feed_spec (n : nat) (draws draws' : list SnakePos) (s s' : t) :
  board (cells s) ->
  feed n draws s = Some (s', draws') ->
  board (cells s')
  /\ List.length (keys_with FOOD (cells s'))
     = (n + List.length (keys_with FOOD (cells s)))%nat
  /\ occupied_cells s' = occupied_cells s + Z.of_nat n
  /\ head s' = head s /\ tail s' = tail s /\ next_dir s' = next_dir s
  /\ inhibit_tail_step s' = inhibit_tail_step s /\ state s' = state s
  /\ step_count s' = step_count s
  /\ forall q, is_cell Nothing (cellAt s q) = false ->
               cellAt s' q = cellAt s q.
Proof.
  revert draws s. induction n as [|n IH]; intros draws s Hb.
  - simpl. intros [= <- <-]. split; [exact Hb|]. repeat split; auto. lia.
  - simpl. destruct (createFood draws s) as [[s1 d1]|] eqn:Hfood;
      [|discriminate].
    intros Hfeed.
    destruct (createFood_spec _ _ _ _ Hfood) as (p & _ & Hp & Hs1).
    destruct (food_on_Nothing p s Hb Hp) as [Hb1 Hc1]. rewrite <- Hs1 in *.
    match type of Hfeed with feed n d1 ?s1' = _ =>
      assert (Hb1' : board (cells s1')) by exact Hb1;
      destruct (IH d1 s1' Hb1' Hfeed)
        as (Hb' & Hc' & Ho & Hh & Ht & Hd & Hi & Hst & Hsc & Hq) end.
    simpl in *. rewrite Hs1 in Ho, Hh, Ht, Hd, Hi, Hst, Hsc. simpl in *.
    split; [exact Hb'|]. repeat split; auto; try lia.
    intros q Hqn.
    assert (Hq1 : cellAt s1 q = cellAt s q)
      by exact (createFood_keeps_snake _ _ _ _ q Hfood Hqn).
    rewrite <- Hq1. apply Hq. unfold cellAt in *. simpl. rewrite Hq1.
    exact Hqn.
Qed.

Lemma fill_Nothing_board (cs : Cells) :
  board cs ->
  board (fill_Nothing cs) /\ keys_with FOOD (fill_Nothing cs) = [].
Proof.
  intros [Hlen Hout]. split.
  - split; [exact Hlen|]. intros k Hk. simpl. rewrite Hlen.
    destruct ((0 <=? k) && (k <? snakeGameWidth * snakeGameHeight)) eqn:E;
      [|apply Hout, Hk].
    apply andb_true_iff in E as [E1 E2].
    apply Z.leb_le in E1. apply Z.ltb_lt in E2. lia.
  - unfold keys_with. simpl.
    apply (proj2 (filter_none _ _)). intros k Hk.
    apply indices_below_In in Hk.
    destruct ((0 <=? k) && (k <? length cs)) eqn:E; [reflexivity|].
    apply andb_false_iff in E as [E|E];
      [apply Z.leb_gt in E|apply Z.ltb_ge in E]; lia.
Qed.

Lemma write_board (k : Z) (c : SnakeCell) (cs : Cells) :
  board cs -> 0 <= k < snakeGameWidth * snakeGameHeight ->
  board (write k c cs).
Proof.
  intros [Hlen Hout] Hk. split.
  - unfold write. cbn [length]. rewrite Hlen.
    destruct (k >=? snakeGameWidth * snakeGameHeight) eqn:E; [|reflexivity].
    apply Z.geb_le in E. lia.
  - intros j Hj. unfold write. cbn [at_key].
    destruct (j =? k) eqn:E; [apply Z.eqb_eq in E; lia|]. apply Hout, Hj.
Qed.

Lemma write_no_food (k : Z) (c : SnakeCell) (cs : Cells) :
  board cs -> 0 <= k < snakeGameWidth * snakeGameHeight ->
  is_cell FOOD (Some c) = false ->
  keys_with FOOD cs = [] -> keys_with FOOD (write k c cs) = [].
Proof.
  intros Hb Hk Hc Hnone.
  destruct (write_board k c cs Hb Hk) as [Hlen' _]. destruct Hb as [Hlen _].
  unfold keys_with in *. rewrite Hlen'. rewrite Hlen in Hnone.
  apply (proj2 (filter_none _ _)). intros j Hj.
  unfold write. cbn [at_key].
  destruct (j =? k); [exact Hc|].
  exact (proj1 (filter_none _ _) Hnone j Hj).
Qed.

(** X29. [start()] on a context whose [cells] is the board array: when the
    random draws reach four free cells, the game is "Playing" with the
    one-cell snake in the centre heading right, four cells of food, none of
    them on the snake, the tail held back for four steps, [occupied_cells]
    at 7, the step count at 0 and [lastStep] at the current time. *)
Theorem start_sets_up_the_board
    (now : Z) (draws draws' : list SnakePos) (s s' : t) :
  board (cells s) ->
  start now draws s = Some (s', draws') ->
  state s' = Playing
  /\ head s' = center /\ tail s' = center /\ next_dir s' = RIGHT
  /\ cellAt s' center = Some SRIGHT
  /\ List.length (keys_with FOOD (cells s')) = 4%nat
  /\ board (cells s')
  /\ inhibit_tail_step s' = 4 /\ occupied_cells s' = 7
  /\ step_count s' = 0 /\ lastStep s' = now
  /\ no_turning_back s'.
Proof.
  intros Hb. unfold start.
  destruct (fill_Nothing_board (cells s) Hb) as [Hb0 Hfood0].
  match goal with |- context [feed 4 draws ?x] => set (s1 := x) end.
  assert (Hcenter : 0 <= key center < snakeGameWidth * snakeGameHeight)
    by (vm_compute; split; [discriminate|reflexivity]).
  assert (Hcells1 : cells s1
                    = write (key center) SRIGHT (fill_Nothing (cells s)))
    by reflexivity.
  assert (Hb1 : board (cells s1))
    by (rewrite Hcells1; apply write_board; assumption).
  assert (Hfood1 : keys_with FOOD (cells s1) = [])
    by (rewrite Hcells1; apply write_no_food; auto).
  assert (Hc1 : cellAt s1 center = Some SRIGHT).
  { unfold cellAt. rewrite Hcells1. unfold write. cbn [at_key].
    rewrite Z.eqb_refl. reflexivity. }
  destruct (feed 4 draws s1) as [[s2 d2]|] eqn:Hfeed; [|discriminate].
  intros [= <- <-].
  destruct (feed_spec 4 draws d2 s1 s2 Hb1 Hfeed)
    as (Hb2 & Hc2 & Ho & Hh & Ht & Hd & Hi & Hst & Hsc & Hq).
  rewrite Hfood1 in Hc2.
  assert (Hc : cellAt s2 center = Some SRIGHT)
    by (rewrite Hq; rewrite Hc1; reflexivity).
  assert (Hh' : head s2 = center) by exact Hh.
  assert (Hd' : next_dir s2 = RIGHT) by exact Hd.
  assert (Hturn : is_cell (cell_of (opposite RIGHT)) (cellAt s2 center)
                  = false) by (rewrite Hc; reflexivity).
  unfold no_turning_back, cellAt in *.
  cbn [state head tail next_dir cells inhibit_tail_step occupied_cells
       step_count lastStep].
  rewrite Hh', Hd'.
  repeat match goal with |- _ /\ _ => split end;
    try assumption; try reflexivity.
Qed.
End SnakeStart.

(** * More examples *)

Lemma sample_labels_distinct : NoDup (label_values Sample.EventType).
Proof. apply increasing_NoDup. reflexivity. Qed.

Lemma session_well_behaved : Forall EventArray.well_behaved Sample.session.
Proof.
  unfold Sample.session.
  repeat (apply Forall_cons; [|]); try exact I; try apply Forall_nil.
  - exact push_keeps_capacity.
  - intros i. exact push_keeps_capacity.
  - apply scripted_well_behaved.
    repeat (apply Forall_cons; [|]); try exact I; try apply Forall_nil.
    exact push_keeps_capacity.
  - exact push_keeps_capacity.
Qed.

Lemma sample_batch_well_formed : well_formed Sample.batch.
Proof.
  exists 2. split; [reflexivity|]. split; [simpl; lia|reflexivity].
Qed.

Lemma new_board : Snake.board (Snake.cells Snake.new).
Proof.
  split; [reflexivity|]. intros k Hk. simpl.
  destruct ((0 <=? k) && (k <? 432)) eqn:E.
  - apply andb_true_iff in E as [E1 E2].
    apply Z.leb_le in E1. apply Z.ltb_lt in E2.
    unfold Snake.snakeGameWidth, Snake.snakeGameHeight in Hk. lia.
  - reflexivity.
Qed.

Lemma label_dispatches_to_its_getter_witness :
  EventUnion.dispatch Sample.EventType (Num (Sample.EventType KEY_UP))
  = keyboard.
Proof.
  apply (label_dispatches_to_its_getter Sample.EventType KEY_UP keyboard).
  - exact sample_labels_distinct.
  - unfold switch_cases. simpl. tauto.
Defined.

Lemma implied_tag_reads_back_witness :
  labels_of mouseWheel = [MOUSE_WHEEL]
  /\ EventUnion.dispatch Sample.EventType (Num (Sample.EventType MOUSE_WHEEL))
     = mouseWheel.
Proof.
  exact (implied_tag_reads_back Sample.EventType mouseWheel MOUSE_WHEEL
                                sample_labels_distinct eq_refl).
Defined.

Lemma true_caches_the_record_tag_witness :
  Event.type (Iteration.loaded true (Sample.record_with_tag 0x300)) = 0x300
  /\ EventUnion.toObject
       (I := Event.impl NativeQueue.queue NativeQueue.pushEvent)
       Sample.EventType _ Sample.read
       (Iteration.loaded true (Sample.record_with_tag 0x300), [])
     = Return (keyboard, Sample.record_with_tag 0x300).
Proof.
  destruct (true_caches_the_record_tag
              Sample.EventType _ Sample.read true
              NativeQueue.queue NativeQueue.pollEvent
              NativeQueue.failing (fun _ => NativeQueue.failing)
              NativeQueue.pushEvent Event.Poll Event.new
              (Iteration.loaded true (Sample.record_with_tag 0x300))
              [Sample.record_with_tag 0x300] [] eq_refl)
    as (Htype & _ & Hobj).
  split; [exact Htype|exact Hobj].
Defined.

Lemma dt_views_the_cursor_record_witness :
  EventArray.dt (snd (EventArray.push Sample.fresh_batch))
  = Return {| byteOffset := 128; byteLength := SizeOfSdlEvent |}
  /\ EventArray.dt
       (EventArray.run_all [EventArray.Push; EventArray.Push]
                           Sample.fresh_batch)
     = Throw (Error "PeepEvents buffer full").
Proof.
  assert (Hnew : EventArray.new Sample.allocates (Number.of_Z 2)
                 = Return Sample.fresh_batch) by reflexivity.
  assert (Hops : Forall EventArray.well_behaved
                        [EventArray.Push; EventArray.Push])
    by (repeat (apply Forall_cons; [exact I|]); apply Forall_nil).
  split.
  - exact (dt_views_the_cursor_record
             Sample.allocates 2 Sample.fresh_batch Sample.session
             (snd (EventArray.push Sample.fresh_batch))
             Hnew session_well_behaved (or_intror (or_introl eq_refl))).
  - exact (dt_views_the_cursor_record
             Sample.allocates 2 Sample.fresh_batch
             [EventArray.Push; EventArray.Push]
             (EventArray.run_all [EventArray.Push; EventArray.Push]
                                 Sample.fresh_batch)
             Hnew Hops (or_intror (or_intror (or_introl eq_refl)))).
Defined.

Lemma variant_push_writes_one_record_witness :
  EventArray.numEvents
    (snd (EventArray.pushVia (Sample.write (mkCommonEvent 0x300 0 0))
                             Sample.batch)) = 2
  /\ slot 0 (snd (EventArray.pushVia (Sample.write (mkCommonEvent 0x300 0 0))
                                     Sample.batch))
     = Sample.record_with_tag 0x100.
Proof.
  assert (Hlt : (EventArray.numEvents Sample.batch
                 < EventArray.maxEvents Sample.batch)%number) by reflexivity.
  destruct (variant_push_writes_one_record
              (Sample.write (mkCommonEvent 0x300 0 0)) Sample.batch
              sample_batch_well_formed Hlt)
    as (_ & Hn & _ & _ & Hothers).
  split; [exact Hn|].
  assert (H0 : 0 <= 0) by lia.
  assert (Hm : (0 < EventArray.maxEvents Sample.batch)%number)
    by reflexivity.
  assert (Hne : 0 <> EventArray.numEvents Sample.batch)
    by (simpl; intros E; discriminate E).
  exact (Hothers 0 H0 Hm Hne).
Defined.

Lemma push_then_get_reads_back_witness :
  EventUnion.project
    (I := EventArray.impl) _ Sample.read keyboard
    (EventArray.set_numEvents
       1 (snd (EventArray.pushVia (Sample.write (mkCommonEvent 0x300 0 0))
                                  Sample.batch)))
  = Return (keyboard, Sample.record_with_tag 0x300).
Proof.
  assert (Hlt : (EventArray.numEvents Sample.batch
                 < EventArray.maxEvents Sample.batch)%number) by reflexivity.
  exact (proj2 (push_then_get_reads_back
                  _ Sample.read keyboard
                  (Sample.write (mkCommonEvent 0x300 0 0))
                  Sample.push_then_throw Sample.batch
                  sample_batch_well_formed Hlt)).
Defined.

Lemma fresh_batch_takes_m_pushes_witness :
  EventArray.numEvents
    (EventArray.run_all (repeat EventArray.Push 3) Sample.fresh_batch)
  = Z.min 3 2
  /\ EventArray.numEvents
       (EventArray.run_all (repeat EventArray.Push 3)
                           Sample.fractional_batch)
     = Z.min 3 2.
Proof.
  assert (Hwhole : EventArray.new Sample.allocates (Number.of_Z 2)
                   = Return Sample.fresh_batch) by reflexivity.
  assert (Hfraction : EventArray.new Sample.allocates (Number.Finite (3 # 2))
                      = Return Sample.fractional_batch) by reflexivity.
  split.
  - exact (proj1 (fresh_batch_takes_m_pushes
                    Sample.allocates (inject_Z 2) Sample.fresh_batch 3
                    Hwhole)).
  - exact (proj1 (fresh_batch_takes_m_pushes
                    Sample.allocates (3 # 2) Sample.fractional_batch 3
                    Hfraction)).
Defined.


Lemma fold_on_empty_batch_witness :
  EventArray.fold Sample.push_and_continue Sample.fresh_batch
  = (Return tt, Sample.fresh_batch).
Proof.
  assert (Hn : EventArray.numEvents Sample.fresh_batch <= 0) by (simpl; lia).
  exact (fold_on_empty_batch Sample.push_and_continue Sample.fresh_batch Hn).
Defined.

Lemma removeWatch_drops_oldest_registration_witness :
  Watchers.removeWatch Z MoreSamples.removeEventWatch 7 0
                       (MoreSamples.registry, 3)
  = ([Watchers.mk 8 0 {| Watchers.pointer := 1000 |};
      Watchers.mk 7 0 {| Watchers.pointer := 1002 |}],
     MoreSamples.removeEventWatch 1001 0 3).
Proof.
  assert (Hbefore : forall i,
             In i [Watchers.mk 8 0 {| Watchers.pointer := 1000 |}] ->
             Watchers.same 7 0 i = false).
  { intros i [<-|[]]. reflexivity. }
  exact (proj1 (removeWatch_drops_oldest_registration
                  Z MoreSamples.removeEventWatch 7 0
                  [Watchers.mk 8 0 {| Watchers.pointer := 1000 |}]
                  [Watchers.mk 7 0 {| Watchers.pointer := 1002 |}]
                  (Watchers.mk 7 0 {| Watchers.pointer := 1001 |})
                  3 Hbefore eq_refl)).
Defined.

Lemma removeWatch_unknown_pair_is_noop_witness :
  Watchers.removeWatch Z MoreSamples.removeEventWatch 9 0
                       (MoreSamples.registry, 3)
  = (MoreSamples.registry, 3).
Proof.
  exact (removeWatch_unknown_pair_is_noop
           Z MoreSamples.removeEventWatch 9 0 MoreSamples.registry 3 eq_refl).
Defined.

Lemma addWatch_then_removeWatch_witness :
  Watchers.addWatch Z MoreSamples.createCb MoreSamples.close
                    MoreSamples.addEventWatch MoreSamples.SdlError 9 0
                    (MoreSamples.registry, 3)
  = (Return tt,
     (Watchers.add 9 0 {| Watchers.pointer := 1003 |} MoreSamples.registry,
      4))
  /\ Watchers.removeWatch
       Z MoreSamples.removeEventWatch 9 0
       (Watchers.add 9 0 {| Watchers.pointer := 1003 |} MoreSamples.registry,
        4)
     = (MoreSamples.registry, MoreSamples.removeEventWatch 1003 0 4).
Proof.
  exact (addWatch_then_removeWatch
           Z MoreSamples.createCb MoreSamples.close MoreSamples.addEventWatch
           MoreSamples.removeEventWatch MoreSamples.SdlError 9 0
           MoreSamples.registry 3 4 4 4 {| Watchers.pointer := 1003 |}
           eq_refl eq_refl eq_refl).
Defined.

Lemma addWatch_failure_registers_nothing_witness :
  Watchers.addWatch Z MoreSamples.createCb MoreSamples.close
                    MoreSamples.refuse MoreSamples.SdlError 9 0
                    (MoreSamples.registry, 3)
  = (Throw (Error "addEventWatch"), (MoreSamples.registry, 4)).
Proof.
  exact (addWatch_failure_registers_nothing
           Z MoreSamples.createCb MoreSamples.close MoreSamples.refuse
           MoreSamples.SdlError 9 0 MoreSamples.registry 3 4 4
           {| Watchers.pointer := 1003 |} eq_refl eq_refl).
Defined.

Lemma peep_sets_the_cursor_witness :
  EventArray.numEvents
    (snd (fst (Peep.peep NativeQueue.queue MoreSamples.peepEvents 0
                         (fun what _ => Error what) Sample.full_batch
                         2 0 0xFFFF [])))
  = 1.
Proof.
  assert (Hwf : well_formed Sample.full_batch)
    by (exists 2; split; [reflexivity|]; split; [simpl; lia|reflexivity]).
  assert (Hr : -1 <= 1
               /\ (1 <= EventArray.maxEvents Sample.full_batch)%number)
    by (split; [lia|reflexivity]).
  destruct (peep_sets_the_cursor
              NativeQueue.queue MoreSamples.peepEvents 0
              (fun what _ => Error what) Sample.full_batch 2 0 0xFFFF [] []
              1 (EventArray.buf Sample.full_batch)
              Hwf eq_refl eq_refl Hr)
    as (_ & _ & _ & Hn & _).
  exact Hn.
Defined.

Lemma deadline_moves_one_interval_per_sleep_witness :
  132 = Iteration.frames_later Z Z.add 16 2 100.
Proof.
  exact (deadline_moves_one_interval_per_sleep
           Sample.EventType true NativeQueue.queue NativeQueue.pollEvent
           Z (fun _ => 90) Z.add Z.sub (fun t => 0 <? t) 0 16 None
           [Iteration.undisturbed; Iteration.undisturbed]
           (Event.AtSleep 100) Event.new [] 100 132 eq_refl eq_refl).
Defined.

Lemma iter_yields_in_queue_order_up_to_quit_witness :
  Iteration.run_to
    Sample.EventType true NativeQueue.queue NativeQueue.pollEvent
    Z (fun _ => 90) Z.add Z.sub (fun t => 0 <? t) 0 16
    (Some MoreSamples.onIdle)
    (repeat Iteration.undisturbed 3) Event.NotStarted Event.new
    [Sample.record_with_tag 0x300; Sample.record_with_tag 0x100;
     Sample.record_with_tag 0x400]
  = ([Event.Polled true;
      Event.Yielded (Iteration.loaded true (Sample.record_with_tag 0x300));
      Event.Polled true;
      Event.Yielded (Iteration.loaded true (Sample.record_with_tag 0x100));
      Event.Returned],
     Event.Completed,
     Iteration.loaded true (Sample.record_with_tag 0x100),
     [Sample.record_with_tag 0x400]).
Proof.
  assert (Hevs : Forall (fun r => getUint32 true r 0 <> Sample.EventType QUIT)
                        [Sample.record_with_tag 0x300]).
  { constructor; [|constructor]. simpl. intros E. discriminate E. }
  exact (iter_yields_in_queue_order_up_to_quit
           Sample.EventType true Z (fun _ => 90) Z.add Z.sub
           (fun t => 0 <? t) 0 16 (Some MoreSamples.onIdle)
           Event.NotStarted Event.new
           [Sample.record_with_tag 0x300] (Sample.record_with_tag 0x100)
           [Sample.record_with_tag 0x400] I Hevs eq_refl).
Defined.

Lemma tick_drains_then_idles_then_sleeps_witness :
  Iteration.run_to
    Sample.EventType true NativeQueue.queue NativeQueue.pollEvent
    Z (fun _ => 90) Z.add Z.sub (fun t => 0 <? t) 0 16
    (Some MoreSamples.onIdle)
    (repeat Iteration.undisturbed 2) (Event.AtSleep 100) Event.new
    [Sample.record_with_tag 0x300]
  = ([Event.Polled true;
      Event.Yielded (Iteration.loaded true (Sample.record_with_tag 0x300));
      Event.Polled false; Event.Idled; Event.Slept 10],
     Event.AtSleep 116,
     Iteration.loaded true (Sample.record_with_tag 0x300),
     []).
Proof.
  assert (Hevs : Forall (fun r => getUint32 true r 0 <> Sample.EventType QUIT)
                        [Sample.record_with_tag 0x300]).
  { constructor; [|constructor]. simpl. intros E. discriminate E. }
  exact (proj1 (tick_drains_then_idles_then_sleeps
                  Sample.EventType true Z (fun _ => 90) Z.add Z.sub
                  (fun t => 0 <? t) 0 16 (Some MoreSamples.onIdle)
                  100 Event.new
                  (Iteration.loaded true (Sample.record_with_tag 0x300))
                  [Sample.record_with_tag 0x300] [Event.Idled] []
                  Hevs eq_refl)).
Defined.

Lemma pushQuit_ends_the_loop_witness :
  Iteration.run_to
    Sample.EventType true NativeQueue.queue NativeQueue.pollEvent
    Z (fun _ => 90) Z.add Z.sub (fun t => 0 <? t) 0 16 None
    (repeat Iteration.undisturbed 3) (Event.AtYield false 100)
    {| Event.record := Sample.record_with_tag 0x100; Event.type := 0 |}
    [Sample.record_with_tag 0x300; Sample.record_with_tag 0x100]
  = ([Event.Polled true;
      Event.Yielded (Iteration.loaded true (Sample.record_with_tag 0x300));
      Event.Polled true;
      Event.Yielded (Iteration.loaded true (Sample.record_with_tag 0x100));
      Event.Returned],
     Event.Completed,
     Iteration.loaded true (Sample.record_with_tag 0x100),
     []).
Proof.
  assert (Hpending :
            Forall (fun r => getUint32 true r 0 <> Sample.EventType QUIT)
                   [Sample.record_with_tag 0x300]).
  { constructor; [|constructor]. simpl. intros E. discriminate E. }
  exact (proj2 (pushQuit_ends_the_loop
                  Sample.EventType true Z (fun _ => 90) Z.add Z.sub
                  (fun t => 0 <? t) 0 16 None Sample.write 100 Event.new
                  (mkPartialCommon None None None)
                  [Sample.record_with_tag 0x300] Hpending eq_refl)).
Defined.

Lemma start_sets_up_the_board_witness :
  Snake.state SnakeSamples.started = Snake.Playing
  /\ Snake.cellAt SnakeSamples.started Snake.center = Some Snake.SRIGHT
  /\ List.length (Snake.keys_with Snake.FOOD
                                  (Snake.cells SnakeSamples.started))
     = 4%nat.
Proof.
  assert (Hstart : Snake.start 1000 SnakeSamples.draws Snake.new
                   = Some (SnakeSamples.started, []))
    by (vm_compute; reflexivity).
  destruct (start_sets_up_the_board
              1000 SnakeSamples.draws [] Snake.new SnakeSamples.started
              new_board Hstart)
    as (Hstate & _ & _ & _ & Hcell & Hfood & _).
  split; [exact Hstate|]. split; [exact Hcell|exact Hfood].
Defined.

Lemma step_result_tells_the_state_witness :
  Snake.step SnakeSamples.draws Snake.new
  = Some (false, Snake.new, SnakeSamples.draws)
  /\ (true = true <-> Snake.state SnakeSamples.stepped = Snake.Playing)
  /\ Snake.step_count SnakeSamples.stepped = 1.
Proof.
  assert (Hstep : Snake.step [] SnakeSamples.started
                  = Some (true, SnakeSamples.stepped, []))
    by (vm_compute; reflexivity).
  assert (Hplay : Snake.state SnakeSamples.started = Snake.Playing)
    by (vm_compute; reflexivity).
  assert (Hinit : Snake.state Snake.new <> Snake.Playing)
    by (intros E; discriminate E).
  split.
  - exact (proj1 (step_result_tells_the_state SnakeSamples.draws Snake.new)
                 Hinit).
  - destruct (proj2 (proj2 (step_result_tells_the_state
                              [] SnakeSamples.started))
                    true SnakeSamples.stepped [] Hstep)
      as (Hb & Hplaying).
    split; [exact Hb|].
    rewrite (proj1 (Hplaying Hplay)). vm_compute. reflexivity.
Defined.

Lemma step_moves_the_head_one_cell_witness :
  Snake.head SnakeSamples.stepped
  = Snake.forward (Snake.next_dir SnakeSamples.started)
                  (Snake.head SnakeSamples.started)
  /\ Snake.cellAt SnakeSamples.stepped (Snake.head SnakeSamples.started)
     = Some (Snake.cell_of (Snake.next_dir SnakeSamples.started)).
Proof.
  assert (Hstep : Snake.step [] SnakeSamples.started
                  = Some (true, SnakeSamples.stepped, []))
    by (vm_compute; reflexivity).
  assert (Hplay : Snake.state SnakeSamples.started = Snake.Playing)
    by (vm_compute; reflexivity).
  destruct (step_moves_the_head_one_cell
              [] [] SnakeSamples.started SnakeSamples.stepped Hplay Hstep)
    as (Hhead & _ & _ & _ & Hneck & _).
  split; [exact Hhead|exact Hneck].
Defined.

Lemma collision_ends_the_game_witness :
  exists s',
    Snake.step [] SnakeSamples.at_wall = Some (false, s', [])
    /\ Snake.state s' = Snake.GameOver
    /\ Snake.head s'
       = Snake.forward (Snake.next_dir SnakeSamples.at_wall)
                       (Snake.head SnakeSamples.at_wall).
Proof.
  exact (collision_ends_the_game [] SnakeSamples.at_wall eq_refl
                                 (or_introl eq_refl)).
Defined.

Lemma tail_moves_when_not_inhibited_witness :
  Snake.tail SnakeSamples.stepped = Snake.tail SnakeSamples.started
  /\ 1 <= Snake.inhibit_tail_step SnakeSamples.stepped.
Proof.
  assert (Hstep : Snake.step [] SnakeSamples.started
                  = Some (true, SnakeSamples.stepped, []))
    by (vm_compute; reflexivity).
  assert (Hplay : Snake.state SnakeSamples.started = Snake.Playing)
    by (vm_compute; reflexivity).
  assert (Hinhibit : Snake.inhibit_tail_step SnakeSamples.started = 4)
    by (vm_compute; reflexivity).
  destruct (tail_moves_when_not_inhibited
              [] [] SnakeSamples.started SnakeSamples.stepped true
              Hplay Hstep)
    as (_ & Hstay & Hone).
  split.
  - apply Hstay. rewrite Hinhibit. intros E. discriminate E.
  - apply Hone. rewrite Hinhibit. lia.
Defined.

Lemma redir_never_turns_back_witness :
  Snake.redir Snake.LEFT SnakeSamples.stepped = SnakeSamples.stepped
  /\ Snake.redir Snake.UP SnakeSamples.stepped
     = Snake.set_next_dir Snake.UP SnakeSamples.stepped.
Proof.
  destruct (redir_never_turns_back Snake.LEFT SnakeSamples.stepped)
    as (Hback & _ & _).
  destruct (redir_never_turns_back Snake.UP SnakeSamples.stepped)
    as (_ & Hturn & _).
  split; [apply Hback|apply Hturn]; vm_compute; reflexivity.
Defined.
